(** * GPVisualizer: the GP engine contract and the Vue application state

    The numeric type of the JavaScript sources (IEEE double) is modelled by
    the real numbers: every statement below is a statement of exact real
    arithmetic.  Exceptions are modelled by the [Result] type. *)

From Stdlib Require Import String.
From Stdlib Require Import Reals Lra Lia List Arith Bool.
Import ListNotations.

Open Scope R_scope.

(** ** Exceptions *)

Inductive JsError : Type :=
| NotPositiveDefiniteError
| TypeError.

Inductive Result (A : Type) : Type :=
| Ok (a : A)
| Err (e : JsError).

Arguments Ok {A} a.
Arguments Err {A} e.

Definition bind {A B : Type} (r : Result A) (f : A -> Result B) : Result B :=
  match r with
  | Ok a => f a
  | Err e => Err e
  end.

Notation "x <- r ;; k" := (bind r (fun x => k))
  (at level 61, r at next level, right associativity).

(** ** Shared data model *)

Record Point : Type := mkPoint { px : R; py : R }.

Record Bounds : Type := mkBounds { xMin : R; xMax : R; yMin : R; yMax : R }.

Inductive KernelId : Type := rbf | matern12 | matern32 | matern52.

Record Params : Type := mkParams {
  lengthScale : R;
  signalVariance : R;
  noiseLevel : R;
  kernel : KernelId
}.

Record Posterior : Type := mkPosterior { mean : list R; variance : list R }.

Record Sample : Type := mkSample { sx : list R; sy : list R }.

Definition Vec : Type := list R.
Definition Matrix : Type := list (list R).

(** [sumf n f] is the accumulation loop
    [let sum = 0; for (k = 0; k < n; k++) sum += f(k)]. *)
Fixpoint sumf (n : nat) (f : nat -> R) : R :=
  match n with
  | O => 0
  | S m => sumf m f + f m
  end.

Definition entry (M : Matrix) (i j : nat) : R := nth j (nth i M []) 0.

(** [Math.floor] and [Math.ceil], as integers. *)
Definition Math_floor (x : R) : Z := Int_part x.
Definition Math_ceil (x : R) : Z := (- Int_part (- x))%Z.

(** [l.map((a, i) => f(i, a))], counting from [i]. *)
Fixpoint mapi_from {A B : Type} (f : nat -> A -> B) (i : nat) (l : list A)
  : list B :=
  match l with
  | [] => []
  | a :: rest => f i a :: mapi_from f (S i) rest
  end.

(** ** Linear-algebra utilities (package gpzoo, utilities) *)

Module Util.

(** Modelled from the spec: gpzoo's [linspace] is not part of the sources.
    "Ordered sequence of n reals evenly spaced from start to end inclusive
    (n >= 1; if n == 1 return [start])". *)
Definition linspace (start stop : R) (n : nat) : list R :=
  if Nat.eqb n 1 then [start]
  else
    let step := (stop - start) / INR (n - 1) in
    map (fun i => start + INR i * step) (seq 0 n).

(** Modelled from the spec: gpzoo's dense products are not part of the
    sources.  The inner product of two vectors. *)
Definition dot (a b : Vec) : R :=
  sumf (length a) (fun k => nth k a 0 * nth k b 0).

(** Modelled from the spec: gpzoo's [cholesky] is not part of the sources.
    "Lower-triangular matrix L such that L * L^T = A, for symmetric
    positive-definite A.  Must fail with a NotPositiveDefiniteError if a
    diagonal pivot becomes <= 0 during factorization."  The factor is built
    row by row; [choleskyOffDiag] fills the entries left of the diagonal of
    the current row from the rows already built. *)
Fixpoint choleskyOffDiag (Ai : Vec) (Lprev : Matrix) (row : Vec) : Vec :=
  match Lprev with
  | [] => row
  | Lj :: rest =>
      let j := length row in
      let s := sumf j (fun k => nth k row 0 * nth k Lj 0) in
      choleskyOffDiag Ai rest (row ++ [(nth j Ai 0 - s) / nth j Lj 0])
  end.

(** Modelled from the spec: the "diagonal pivot" of [cholesky], for row
    [i = length Lprev] of a matrix whose [i]-th row is [Ai]:
    [A[i][i] - sum_{k<i} L[i][k]^2]. *)
Definition pivot (Ai : Vec) (Lprev : Matrix) : R :=
  let i := length Lprev in
  let row := choleskyOffDiag Ai Lprev [] in
  nth i Ai 0 - sumf i (fun k => nth k row 0 * nth k row 0).

(** Modelled from the spec: the row loop of [cholesky].  A row whose pivot
    is not positive aborts the factorization; otherwise the diagonal entry
    is the square root of the pivot and the entries right of it are 0. *)
Fixpoint choleskyRows (n : nat) (todo : Matrix) (Lacc : Matrix)
  : Result Matrix :=
  match todo with
  | [] => Ok Lacc
  | Ai :: rest =>
      let i := length Lacc in
      let d := pivot Ai Lacc in
      if Rle_dec d 0 then Err NotPositiveDefiniteError
      else
        choleskyRows n rest
          (Lacc ++ [choleskyOffDiag Ai Lacc [] ++ sqrt d :: repeat 0 (n - S i)])
  end.

(** Modelled from the spec: [cholesky(A)]. *)
Definition cholesky (A : Matrix) : Result Matrix :=
  choleskyRows (length A) A [].

(** Modelled from the spec: the factorization of the leading [i] rows
    only, that is the state of [cholesky(A)] when it reaches row [i]. *)
Definition choleskyUpTo (A : Matrix) (i : nat) : Result Matrix :=
  choleskyRows (length A) (firstn i A) [].

(** Modelled from the spec: "[solveL(L, b)]: forward substitution solving
    [L * y = b]". *)
Definition solveL (L : Matrix) (b : Vec) : Vec :=
  fold_left
    (fun y i =>
       y ++ [(nth i b 0 - sumf i (fun k => entry L i k * nth k y 0))
             / entry L i i])
    (seq 0 (length L)) [].

(** Modelled from the spec: "[solveLt(L, y)]: back substitution solving
    [L^T * x = y]".  The accumulator holds [x[i+1 .. n-1]]. *)
Definition solveLt (L : Matrix) (y : Vec) : Vec :=
  let n := length L in
  fold_left
    (fun x i =>
       (nth i y 0
        - sumf (n - S i) (fun t => entry L (S i + t) i * nth t x 0))
       / entry L i i :: x)
    (rev (seq 0 n)) [].

(** Modelled from the spec: "[choleskySolve(L, b)]: composition of the two
    triangular solves, solving [L * L^T * x = b]". *)
Definition choleskySolve (L : Matrix) (b : Vec) : Vec :=
  solveLt L (solveL L b).

End Util.

(** ** Kernel library (package gpzoo, kernels) *)

Module Kernels.

(** Modelled from the spec: the four covariance functions of section 4.2,
    with [r = |x - x'| / lengthScale]. *)
Definition scaledDist (l x x' : R) : R := Rabs (x - x') / l.

(** Modelled from the spec: RBF, [s2 * exp(-r^2 / 2)]. *)
Definition k_rbf (l s2 x x' : R) : R :=
  let r := scaledDist l x x' in s2 * exp (- (r * r) / 2).

(** Modelled from the spec: Matern 1/2, [s2 * exp(-r)]. *)
Definition k_matern12 (l s2 x x' : R) : R :=
  let r := scaledDist l x x' in s2 * exp (- r).

(** Modelled from the spec: Matern 3/2,
    [s2 * (1 + sqrt 3 * r) * exp(- sqrt 3 * r)]. *)
Definition k_matern32 (l s2 x x' : R) : R :=
  let r := scaledDist l x x' in
  s2 * (1 + sqrt 3 * r) * exp (- (sqrt 3 * r)).

(** Modelled from the spec: Matern 5/2,
    [s2 * (1 + sqrt 5 * r + 5 r^2 / 3) * exp(- sqrt 5 * r)]. *)
Definition k_matern52 (l s2 x x' : R) : R :=
  let r := scaledDist l x x' in
  s2 * (1 + sqrt 5 * r + 5 * (r * r) / 3) * exp (- (sqrt 5 * r)).

(** Modelled from the spec: the kernel selected by the enumerated
    identifier of the parameter record. *)
Definition resolveKernel (p : Params) : R -> R -> R :=
  match kernel p with
  | rbf => k_rbf (lengthScale p) (signalVariance p)
  | matern12 => k_matern12 (lengthScale p) (signalVariance p)
  | matern32 => k_matern32 (lengthScale p) (signalVariance p)
  | matern52 => k_matern52 (lengthScale p) (signalVariance p)
  end.

End Kernels.

(** ** GP engine (package gpzoo, gp) *)

Module GP.

(** Modelled from the spec: the covariance matrix of the observations,
    [K[i][j] = k(x_i, x_j) + noise^2 * [i == j]]. *)
Definition buildK (observations : list Point) (params : Params) : Matrix :=
  let k := Kernels.resolveKernel params in
  let n := length observations in
  map (fun i =>
         map (fun j =>
                k (px (nth i observations (mkPoint 0 0)))
                  (px (nth j observations (mkPoint 0 0)))
                + (if Nat.eqb i j
                   then noiseLevel params * noiseLevel params else 0))
             (seq 0 n))
      (seq 0 n).

(** Modelled from the spec: the cross-covariance matrix,
    [K_*[i][j] = k(x_i, testX_j)]. *)
Definition buildKstar (observations : list Point) (testX : list R)
  (params : Params) : Matrix :=
  let k := Kernels.resolveKernel params in
  map (fun o => map (fun t => k (px o) t) testX) observations.

(** Modelled from the spec: the column [K_*[:, j]]. *)
Definition column (M : Matrix) (j : nat) : Vec :=
  map (fun row => nth j row 0) M.

(** Modelled from the spec: gpzoo's [computePosterior] is not part of the
    sources.  Section 4.3: the prior when there is no observation;
    otherwise Cholesky factor of [K], [alpha = choleskySolve(L, y)],
    [mean = K_*^T * alpha], and for each test point [j] the variance
    [max(0, k(t_j, t_j) - v_j . v_j)] with [v_j = solveL(L, K_*[:, j])].  A
    failure of the factorization is propagated. *)
Definition computePosterior (observations : list Point) (testX : list R)
  (params : Params) : Result Posterior :=
  match observations with
  | [] =>
      Ok {| mean := map (fun _ => 0) testX;
            variance := map (fun _ => signalVariance params) testX |}
  | _ :: _ =>
      let k := Kernels.resolveKernel params in
      let m := length testX in
      let K := buildK observations params in
      let Ks := buildKstar observations testX params in
      L <- Util.cholesky K ;;
      let alpha := Util.choleskySolve L (map py observations) in
      Ok {| mean := map (fun j => Util.dot (column Ks j) alpha) (seq 0 m);
            variance :=
              map (fun j =>
                     let v := Util.solveL L (column Ks j) in
                     Rmax 0 (k (nth j testX 0) (nth j testX 0)
                             - Util.dot v v))
                  (seq 0 m) |}
  end.

(** Modelled from the spec: the "small jitter (e.g. 1e-6)" that
    [sampleFromGP] adds to the diagonal of the covariance before
    factorizing it. *)
Definition jitter : R := 1 / 1000000.

(** Modelled from the spec: the covariance among the sample points,
    [K(sampleX, sampleX)]. *)
Definition buildKss (sampleX : list R) (params : Params) : Matrix :=
  let k := Kernels.resolveKernel params in
  map (fun s => map (fun t => k s t) sampleX) sampleX.

(** Modelled from the spec: step 1 of [sampleFromGP], the mean and the full
    covariance at [sampleX].  Without observations these are the prior's,
    mean 0 and [K(sampleX, sampleX)]; otherwise [K = L * L^T] is factored,
    the mean is [K_*^T * alpha], and the covariance
    [K(sampleX, sampleX) - K_*^T * L^-T * L^-1 * K_*], whose entry [(i, j)]
    is [k(s_i, s_j) - v_i . v_j] with [v_j = solveL(L, K_*[:, j])].  A
    failure of the factorization of [K] is propagated. *)
Definition posteriorMoments (observations : list Point) (sampleX : list R)
  (params : Params) : Result (Vec * Matrix) :=
  let Kss := buildKss sampleX params in
  match observations with
  | [] => Ok (map (fun _ => 0) sampleX, Kss)
  | _ :: _ =>
      let m := length sampleX in
      let K := buildK observations params in
      let Ks := buildKstar observations sampleX params in
      L <- Util.cholesky K ;;
      let alpha := Util.choleskySolve L (map py observations) in
      let V := map (fun j => Util.solveL L (column Ks j)) (seq 0 m) in
      Ok (map (fun j => Util.dot (column Ks j) alpha) (seq 0 m),
          map (fun i =>
                 map (fun j =>
                        entry Kss i j - Util.dot (nth i V []) (nth j V []))
                     (seq 0 m))
              (seq 0 m))
  end.

(** Modelled from the spec: the jitter added to the diagonal. *)
Definition addJitter (S : Matrix) : Matrix :=
  mapi_from
    (fun i row =>
       mapi_from (fun j v => if Nat.eqb i j then v + jitter else v) 0 row)
    0 S.

(** Modelled from the spec: gpzoo's [sampleFromGP] is not part of the
    sources.  Section 4.3: mean and covariance at [sampleX], the jittered
    covariance factored as [L_S * L_S^T], and the result
    [mean + L_S * z].  The standard-normal variates [z] that the source
    draws from [Math.random] are an argument.  A failure of either
    factorization is propagated. *)
Definition sampleFromGP (observations : list Point) (sampleX : list R)
  (params : Params) (z : Vec) : Result Vec :=
  moments <- posteriorMoments observations sampleX params ;;
  LS <- Util.cholesky (addJitter (snd moments)) ;;
  Ok (map (fun i => nth i (fst moments) 0 + Util.dot (nth i LS []) z)
        (seq 0 (length sampleX))).

End GP.

(** ** The canvas component with its viewport (components/GPCanvas.vue) *)

Module GPCanvas.

(** The [{x, y}] objects of the viewport: pan offset, pointer positions and
    touch points (a touch is given by its [clientX], [clientY]). *)
Record Pos : Type := mkPos { posX : R; posY : R }.

Record State : Type := mkState {
  width : R;
  height : R;
  bounds : Bounds;
  zoomLevel : R;
  panOffset : Pos;
  isDragging : bool;
  hasDragged : bool;
  lastMousePos : Pos;
  initialTouchDistance : R
}.

Definition defaultBounds : Bounds := mkBounds (-3) 3 (-2) 2.

Definition numTest : nat := 300.

Definition testX (st : State) : list R :=
  Util.linspace (xMin (bounds st)) (xMax (bounds st)) numTest.

Definition MAX_SCALE_FACTOR : R := 4.
Definition MIN_ZOOM : R := 1 / MAX_SCALE_FACTOR.
Definition MAX_ZOOM : R := 3.

Definition init : State :=
  {| width := 0; height := 0; bounds := defaultBounds; zoomLevel := 1;
     panOffset := mkPos 0 0; isDragging := false; hasDragged := false;
     lastMousePos := mkPos 0 0; initialTouchDistance := 0 |}.

(** Field updates. *)
Definition setSize (w h : R) (st : State) : State :=
  mkState w h (bounds st) (zoomLevel st) (panOffset st) (isDragging st)
    (hasDragged st) (lastMousePos st) (initialTouchDistance st).
Definition setBounds (b : Bounds) (st : State) : State :=
  mkState (width st) (height st) b (zoomLevel st) (panOffset st)
    (isDragging st) (hasDragged st) (lastMousePos st)
    (initialTouchDistance st).
Definition setZoomLevel (z : R) (st : State) : State :=
  mkState (width st) (height st) (bounds st) z (panOffset st)
    (isDragging st) (hasDragged st) (lastMousePos st)
    (initialTouchDistance st).
Definition setPanOffset (p : Pos) (st : State) : State :=
  mkState (width st) (height st) (bounds st) (zoomLevel st) p
    (isDragging st) (hasDragged st) (lastMousePos st)
    (initialTouchDistance st).
Definition setIsDragging (d : bool) (st : State) : State :=
  mkState (width st) (height st) (bounds st) (zoomLevel st) (panOffset st)
    d (hasDragged st) (lastMousePos st) (initialTouchDistance st).
Definition setHasDragged (d : bool) (st : State) : State :=
  mkState (width st) (height st) (bounds st) (zoomLevel st) (panOffset st)
    (isDragging st) d (lastMousePos st) (initialTouchDistance st).
Definition setLastMousePos (p : Pos) (st : State) : State :=
  mkState (width st) (height st) (bounds st) (zoomLevel st) (panOffset st)
    (isDragging st) (hasDragged st) p (initialTouchDistance st).
Definition setInitialTouchDistance (d : R) (st : State) : State :=
  mkState (width st) (height st) (bounds st) (zoomLevel st) (panOffset st)
    (isDragging st) (hasDragged st) (lastMousePos st) d.

(** The posterior that [render] draws: [computePosterior(props.points,
    testX.value, props.params)]. *)
Definition posterior (points : list Point) (params : Params) (st : State)
  : Result Posterior :=
  GP.computePosterior points (testX st) params.

(** Coordinate transforms.  A division by a zero [width] or [height] gives
    NaN or Infinity in the source and 0 in the reals: [toDataX], [toDataY]
    and [panBy] below agree with the source on a canvas of positive size,
    and the properties that involve them are stated for such a canvas. *)
Definition toCanvasX (st : State) (x : R) : R :=
  ((x - xMin (bounds st)) / (xMax (bounds st) - xMin (bounds st)))
  * width st.
Definition toCanvasY (st : State) (y : R) : R :=
  height st
  - ((y - yMin (bounds st)) / (yMax (bounds st) - yMin (bounds st)))
    * height st.
Definition toDataX (st : State) (cx : R) : R :=
  xMin (bounds st) + (cx / width st) * (xMax (bounds st) - xMin (bounds st)).
Definition toDataY (st : State) (cy : R) : R :=
  yMax (bounds st)
  - (cy / height st) * (yMax (bounds st) - yMin (bounds st)).

(** [setupCanvas]: the canvas takes the size of its bounding rectangle. *)
Definition setupCanvas (rectWidth rectHeight : R) (st : State) : State :=
  setSize rectWidth rectHeight st.

Definition clampPanOffset (st : State) (offset : Pos) : Pos :=
  let worldWidth := (xMax defaultBounds - xMin defaultBounds) * MAX_SCALE_FACTOR in
  let worldHeight := (yMax defaultBounds - yMin defaultBounds) * MAX_SCALE_FACTOR in
  let viewWidth := (xMax defaultBounds - xMin defaultBounds) / zoomLevel st in
  let viewHeight := (yMax defaultBounds - yMin defaultBounds) / zoomLevel st in
  let maxPanX := Rmax 0 ((worldWidth - viewWidth) / 2) in
  let maxPanY := Rmax 0 ((worldHeight - viewHeight) / 2) in
  mkPos (Rmax (- maxPanX) (Rmin maxPanX (posX offset)))
        (Rmax (- maxPanY) (Rmin maxPanY (posY offset))).

Definition updateBounds (st : State) : State :=
  let centerX := (xMin defaultBounds + xMax defaultBounds) / 2 + posX (panOffset st) in
  let centerY := (yMin defaultBounds + yMax defaultBounds) / 2 + posY (panOffset st) in
  let rangeX := (xMax defaultBounds - xMin defaultBounds) / (2 * zoomLevel st) in
  let rangeY := (yMax defaultBounds - yMin defaultBounds) / (2 * zoomLevel st) in
  setBounds (mkBounds (centerX - rangeX) (centerX + rangeX)
                      (centerY - rangeY) (centerY + rangeY)) st.

Definition clampZoom (z : R) : R := Rmax MIN_ZOOM (Rmin MAX_ZOOM z).

Definition handleWheel (clientX clientY deltaY rectLeft rectTop : R)
  (st : State) : State :=
  let mouseX := clientX - rectLeft in
  let mouseY := clientY - rectTop in
  let worldX := toDataX st mouseX in
  let worldY := toDataY st mouseY in
  let zoomFactor := if Rlt_dec 0 deltaY then 9 / 10 else 11 / 10 in
  let newZoom := clampZoom (zoomLevel st * zoomFactor) in
  if Req_dec_T newZoom (zoomLevel st) then st
  else
    let st1 := setZoomLevel newZoom st in
    let centerX := (xMin defaultBounds + xMax defaultBounds) / 2 + posX (panOffset st1) in
    let centerY := (yMin defaultBounds + yMax defaultBounds) / 2 + posY (panOffset st1) in
    let pan :=
      mkPos (posX (panOffset st1) + (worldX - centerX) * (1 - zoomFactor))
            (posY (panOffset st1) + (worldY - centerY) * (1 - zoomFactor)) in
    updateBounds (setPanOffset (clampPanOffset st1 pan) st1).

Definition handleMouseDown (detail : nat) (offsetX offsetY : R) (st : State)
  : State :=
  if Nat.eqb detail 2 then st
  else
    setLastMousePos (mkPos offsetX offsetY)
      (setHasDragged false (setIsDragging true st)).

(** The pan shared by the mouse and the one-finger touch move. *)
Definition panBy (deltaX deltaY : R) (st : State) : Pos :=
  mkPos (posX (panOffset st)
         - (deltaX / width st) * (xMax (bounds st) - xMin (bounds st)))
        (posY (panOffset st)
         + (deltaY / height st) * (yMax (bounds st) - yMin (bounds st))).

Definition handleMouseMove (offsetX offsetY : R) (st : State) : State :=
  if isDragging st then
    let deltaX := offsetX - posX (lastMousePos st) in
    let deltaY := offsetY - posY (lastMousePos st) in
    let st1 :=
      if Rlt_dec 1 (Rabs deltaX) then setHasDragged true st
      else if Rlt_dec 1 (Rabs deltaY) then setHasDragged true st
      else st in
    let st2 := setPanOffset (clampPanOffset st1 (panBy deltaX deltaY st1)) st1 in
    updateBounds (setLastMousePos (mkPos offsetX offsetY) st2)
  else st.

Definition handleMouseUp (st : State) : State := setIsDragging false st.

Definition handleDoubleClick (st : State) : State :=
  updateBounds (setPanOffset (mkPos 0 0) (setZoomLevel 1 st)).

Definition touchDistance (t0 t1 : Pos) : R :=
  let dx := posX t0 - posX t1 in
  let dy := posY t0 - posY t1 in
  sqrt (dx * dx + dy * dy).

Definition handleTouchStart (touches : list Pos) (st : State) : State :=
  match touches with
  | [t0] => setLastMousePos t0 (setIsDragging true st)
  | [t0; t1] => setInitialTouchDistance (touchDistance t0 t1) st
  | _ => st
  end.

Definition pinch (t0 t1 : Pos) (st : State) : State :=
  if Rlt_dec 0 (initialTouchDistance st) then
    let currentDistance := touchDistance t0 t1 in
    let zoomFactor := currentDistance / initialTouchDistance st in
    let newZoom := clampZoom (zoomLevel st * zoomFactor) in
    if Req_dec_T newZoom (zoomLevel st) then st
    else
      updateBounds
        (setInitialTouchDistance currentDistance (setZoomLevel newZoom st))
  else st.

Definition handleTouchMove (touches : list Pos) (st : State) : State :=
  match touches with
  | [t0] =>
      if isDragging st then
        let deltaX := posX t0 - posX (lastMousePos st) in
        let deltaY := posY t0 - posY (lastMousePos st) in
        let st1 := setPanOffset (clampPanOffset st (panBy deltaX deltaY st)) st in
        updateBounds (setLastMousePos t0 st1)
      else st
  | [t0; t1] => pinch t0 t1 st
  | _ => st
  end.

Definition handleTouchEnd (st : State) : State :=
  setInitialTouchDistance 0 (setIsDragging false st).

(** [handleClick] returns the new state and the point emitted with
    ['add-point'], if any. *)
Definition handleClick (offsetX offsetY : R) (st : State)
  : State * option Point :=
  if hasDragged st then (setHasDragged false st, None)
  else (st, Some (mkPoint (toDataX st offsetX) (toDataY st offsetY))).

(** The DOM events the template binds, and the resize observer. *)
Inductive Event : Type :=
| Resize (rectWidth rectHeight : R)
| Click (offsetX offsetY : R)
| Wheel (clientX clientY deltaY rectLeft rectTop : R)
| MouseDown (detail : nat) (offsetX offsetY : R)
| MouseMove (offsetX offsetY : R)
| MouseUp
| MouseLeave
| DblClick
| TouchStart (touches : list Pos)
| TouchMove (touches : list Pos)
| TouchEnd.

Definition step (st : State) (e : Event) : State :=
  match e with
  | Resize w h => setupCanvas w h st
  | Click ox oy => fst (handleClick ox oy st)
  | Wheel cx cy dy l t => handleWheel cx cy dy l t st
  | MouseDown d ox oy => handleMouseDown d ox oy st
  | MouseMove ox oy => handleMouseMove ox oy st
  | MouseUp | MouseLeave => handleMouseUp st
  | DblClick => handleDoubleClick st
  | TouchStart ts => handleTouchStart ts st
  | TouchMove ts => handleTouchMove ts st
  | TouchEnd => handleTouchEnd st
  end.

Definition run (evs : list Event) : State := fold_left step evs init.

(** *** Drawing *)

(** Helper for dynamic grid spacing. *)
Definition calculateGridStep (range : R) : R :=
  if Rlt_dec range (25 / 100) then 5 / 100
  else if Rlt_dec range (5 / 10) then 1 / 10
  else if Rlt_dec range 1 then 25 / 100
  else if Rlt_dec range 2 then 5 / 10
  else 1.

(** The grid of [drawGrid]: the steps, and the first and the last line of
    each axis ([startX], [endX], [startY], [endY]).  The steps compare the
    exact range with the thresholds of [calculateGridStep]; the source
    compares the range as rounded by its floating-point subtraction, which
    can fall just below a threshold that the exact range meets (a range of
    2 at zoom level 3).  The properties of the steps in reachable states
    are stated away from the thresholds. *)
Definition xStep (st : State) : R :=
  calculateGridStep (xMax (bounds st) - xMin (bounds st)).
Definition yStep (st : State) : R :=
  calculateGridStep (yMax (bounds st) - yMin (bounds st)).
Definition startX (st : State) : R :=
  IZR (Math_ceil (xMin (bounds st) / xStep st)) * xStep st.
Definition endX (st : State) : R :=
  IZR (Math_floor (xMax (bounds st) / xStep st)) * xStep st.
Definition startY (st : State) : R :=
  IZR (Math_ceil (yMin (bounds st) / yStep st)) * yStep st.
Definition endY (st : State) : R :=
  IZR (Math_floor (yMax (bounds st) / yStep st)) * yStep st.

(** The calls the drawing functions make on the 2D context, in order.
    Without a context ([ctx] is [null]) they return at once; the lists
    below are the calls made on a context. *)
Inductive CanvasOp : Type :=
| BeginPath
| MoveTo (x y : R)
| LineTo (x y : R)
| ClosePath
| Stroke
| Fill
| SetStrokeStyle (style : string)
| SetLineWidth (w : R)
| SetLineCap (cap : string)
| SetLineJoin (join : string)
| CreateLinearGradient (x0 y0 x1 y1 : R)
| AddColorStop (offset : R) (color : string)
| SetFillStyleGradient.

(** [i === 0 ? ctx.moveTo(x, y) : ctx.lineTo(x, y)].  In the drawing
    functions an array read past its end ([undefined] in the source) is
    modelled as 0, and [Math.sqrt] of a negative number (NaN in the source)
    as the real [sqrt], which is 0 there; the properties of the drawings are
    stated for indices inside the arrays and non-negative variances. *)
Definition pathTo (i : nat) (x y : R) : CanvasOp :=
  if Nat.eqb i 0 then MoveTo x y else LineTo x y.

Definition drawConfidenceBand (st : State) (mean variance : list R)
  : list CanvasOp :=
  let n := length (testX st) in
  [BeginPath]
  ++ map (fun i =>
            pathTo i (toCanvasX st (nth i (testX st) 0))
              (toCanvasY st (nth i mean 0 + 2 * sqrt (nth i variance 0))))
       (seq 0 n)
  ++ map (fun i =>
            LineTo (toCanvasX st (nth i (testX st) 0))
              (toCanvasY st (nth i mean 0 - 2 * sqrt (nth i variance 0))))
       (rev (seq 0 n))
  ++ [ClosePath;
      CreateLinearGradient 0 0 0 (height st);
      AddColorStop 0 "rgba(124, 58, 237, 0.3)";
      AddColorStop (5 / 10) "rgba(124, 58, 237, 0.15)";
      AddColorStop 1 "rgba(124, 58, 237, 0.3)";
      SetFillStyleGradient;
      Fill].

(** The path along the mean, traced twice by [drawMeanLine]. *)
Definition meanPath (st : State) (mean : list R) : list CanvasOp :=
  map (fun i =>
         pathTo i (toCanvasX st (nth i (testX st) 0))
           (toCanvasY st (nth i mean 0)))
      (seq 0 (length (testX st))).

Definition drawMeanLine (st : State) (mean : list R) : list CanvasOp :=
  [BeginPath;
   SetStrokeStyle "rgba(0, 212, 255, 0.3)";
   SetLineWidth 8;
   SetLineCap "round";
   SetLineJoin "round"]
  ++ meanPath st mean
  ++ [Stroke;
      BeginPath;
      SetStrokeStyle "#00d4ff";
      SetLineWidth 3]
  ++ meanPath st mean
  ++ [Stroke].

Definition colors : list string :=
  ["rgba(255, 150, 150, 0.5)";
   "rgba(150, 255, 150, 0.5)";
   "rgba(150, 150, 255, 0.5)";
   "rgba(255, 255, 150, 0.5)";
   "rgba(255, 150, 255, 0.5)"]%string.

(** One sample of [drawSamples]: [s] is its index in [props.samples]. *)
Definition drawSample (st : State) (s : nat) (sample : Sample)
  : list CanvasOp :=
  [BeginPath;
   SetStrokeStyle (nth (s mod length colors) colors ""%string);
   SetLineWidth 2]
  ++ mapi_from
       (fun i xi =>
          pathTo i (toCanvasX st xi) (toCanvasY st (nth i (sy sample) 0)))
       0 (sx sample)
  ++ [Stroke].

Definition drawSamples (st : State) (samples : list Sample)
  : list CanvasOp :=
  concat (mapi_from (drawSample st) 0 samples).

End GPCanvas.

(** ** Application state (App.vue) *)

(** The entries of the reactive [params] array.  The [label] of an entry is
    display text and is not modelled; [vmin], [vmax] and [vstep] are the
    slider attributes [min], [max] and [step]. *)
Inductive ParamKey : Type := KLengthScale | KSignalVariance | KNoiseLevel.

Record Slider : Type := mkSlider {
  key : ParamKey; value : R; vmin : R; vmax : R; vstep : R
}.

Definition ParamKey_eqb (a b : ParamKey) : bool :=
  match a, b with
  | KLengthScale, KLengthScale
  | KSignalVariance, KSignalVariance
  | KNoiseLevel, KNoiseLevel => true
  | _, _ => false
  end.

Definition KernelId_eqb (a b : KernelId) : bool :=
  match a, b with
  | rbf, rbf | matern12, matern12 | matern32, matern32
  | matern52, matern52 => true
  | _, _ => false
  end.

Definition initialParams : list Slider :=
  [ mkSlider KLengthScale 1 (1 / 10) 3 (5 / 100);
    mkSlider KSignalVariance 1 (1 / 10) 3 (5 / 100);
    mkSlider KNoiseLevel (1 / 10) (1 / 100) (5 / 10) (1 / 100) ].

(** [params.find(p => p.key === k).value]; reading [.value] of [undefined]
    throws a TypeError. *)
Definition findValue (k : ParamKey) (params : list Slider) : Result R :=
  match find (fun p => ParamKey_eqb (key p) k) params with
  | Some p => Ok (value p)
  | None => Err TypeError
  end.

Definition computeGpParams (params : list Slider) (selectedKernel : KernelId)
  : Result Params :=
  l <- findValue KLengthScale params ;;
  s <- findValue KSignalVariance params ;;
  n <- findValue KNoiseLevel params ;;
  Ok (mkParams l s n selectedKernel).

(** [params[index].value = value]: the new array, and whether a reactive
    change was triggered ([None] when [params[index]] is [undefined]: the
    assignment throws). *)
Fixpoint setParamValue (params : list Slider) (index : nat) (v : R)
  : option (list Slider * bool) :=
  match params, index with
  | [], _ => None
  | p :: rest, O =>
      Some (mkSlider (key p) v (vmin p) (vmax p) (vstep p) :: rest,
            if Req_dec_T v (value p) then false else true)
  | p :: rest, S i =>
      match setParamValue rest i v with
      | Some (rest', changed) => Some (p :: rest', changed)
      | None => None
      end
  end.

(** [samples.push(s); if (samples.length > 5) samples.shift()]. *)
Definition pushSample (samples : list Sample) (s : Sample) : list Sample :=
  let pushed := samples ++ [s] in
  if Nat.ltb 5 (length pushed) then tl pushed else pushed.

(** The loop of [addRandomPoints]: [todo] iterations left, [calls] the
    number of calls of [Math.random] made so far, [random k] the result of
    call number [k]. *)
Fixpoint addRandomLoop (random : nat -> R) (b : Bounds) (todo : nat)
  (points : list Point) (calls : nat) : list Point * nat :=
  match todo with
  | O => (points, calls)
  | S todo' =>
      let x := xMin b + random calls * (xMax b - xMin b) in
      let y := yMin b + random (S calls) * (yMax b - yMin b) in
      addRandomLoop random b todo' (points ++ [mkPoint x y]) (S (S calls))
  end.

(** The type of gpzoo's [sampleFromGP], which is not part of the sources:
    observations, grid, parameters and the number of [Math.random] calls
    made so far, to the drawn values (or an exception) and the new number
    of calls. *)
Definition Sampler : Type :=
  list Point -> list R -> Params -> nat -> Result (list R) * nat.

(** *** The application after the refactoring: App.vue imports the engine
    from gpzoo and owns the bounds, the test grid and the posterior. *)

Module App.

Record State : Type := mkState {
  points : list Point;
  selectedKernel : KernelId;
  params : list Slider;
  bounds : Bounds;
  samples : list Sample;
  randomCalls : nat
}.

Definition init : State :=
  {| points := []; selectedKernel := rbf; params := initialParams;
     bounds := mkBounds (-3) 3 (-2) 2; samples := []; randomCalls := O |}.

Definition setPoints (l : list Point) (st : State) : State :=
  mkState l (selectedKernel st) (params st) (bounds st) (samples st)
    (randomCalls st).
Definition setSelectedKernel (k : KernelId) (st : State) : State :=
  mkState (points st) k (params st) (bounds st) (samples st)
    (randomCalls st).
Definition setParams (l : list Slider) (st : State) : State :=
  mkState (points st) (selectedKernel st) l (bounds st) (samples st)
    (randomCalls st).
Definition setBounds (b : Bounds) (st : State) : State :=
  mkState (points st) (selectedKernel st) (params st) b (samples st)
    (randomCalls st).
Definition setSamples (l : list Sample) (st : State) : State :=
  mkState (points st) (selectedKernel st) (params st) (bounds st) l
    (randomCalls st).
Definition setRandomCalls (c : nat) (st : State) : State :=
  mkState (points st) (selectedKernel st) (params st) (bounds st)
    (samples st) c.

Definition gpParams (st : State) : Result Params :=
  computeGpParams (params st) (selectedKernel st).

Definition numTest : nat := 300.

Definition testX (st : State) : list R :=
  Util.linspace (xMin (bounds st)) (xMax (bounds st)) numTest.

Definition posterior (st : State) : Result Posterior :=
  p <- gpParams st ;; GP.computePosterior (points st) (testX st) p.

Section Handlers.

Variable random : nat -> R.
Variable sampleFromGP : Sampler.

(** Every handler returns the new state and whether it changed one of the
    sources [points, params, selectedKernel] of the deep watcher. *)
Definition addPoint (point : Point) (st : State) : State * bool :=
  (setPoints (points st ++ [point]) st, true).

Definition addRandomPoints (st : State) : State * bool :=
  let (pts, calls) :=
    addRandomLoop random (bounds st) 5 (points st) (randomCalls st) in
  (setRandomCalls calls (setPoints pts st), true).

Definition sampleGP (st : State) : State * bool :=
  match gpParams st with
  | Err _ => (st, false)
  | Ok p =>
      match sampleFromGP (points st) (testX st) p (randomCalls st) with
      | (Err _, calls) => (setRandomCalls calls st, false)
      | (Ok sampleY, calls) =>
          (setRandomCalls calls
             (setSamples (pushSample (samples st) (mkSample (testX st) sampleY))
                st),
           false)
      end
  end.

Definition clearAll (st : State) : State * bool :=
  (setSamples [] (setPoints [] st),
   match points st with [] => false | _ :: _ => true end).

Definition updateParamValue (index : nat) (v : R) (st : State)
  : State * bool :=
  match setParamValue (params st) index v with
  | Some (params', changed) => (setParams params' st, changed)
  | None => (st, false)
  end.

Definition updateKernel (k : KernelId) (st : State) : State * bool :=
  (setSelectedKernel k st, negb (KernelId_eqb k (selectedKernel st))).

Definition handleBoundsChange (newBounds : Bounds) (st : State)
  : State * bool :=
  (setBounds newBounds st, false).

(** [watch([points, params, selectedKernel], () => samples.length = 0)]. *)
Definition flushWatcher (r : State * bool) : State :=
  if snd r then setSamples [] (fst r) else fst r.

Inductive Event : Type :=
| AddPoint (point : Point)
| AddRandom
| SampleGP
| ClearAll
| UpdateParam (index : nat) (v : R)
| UpdateKernel (k : KernelId)
| BoundsChange (newBounds : Bounds).

Definition handle (st : State) (e : Event) : State * bool :=
  match e with
  | AddPoint p => addPoint p st
  | AddRandom => addRandomPoints st
  | SampleGP => sampleGP st
  | ClearAll => clearAll st
  | UpdateParam i v => updateParamValue i v st
  | UpdateKernel k => updateKernel k st
  | BoundsChange b => handleBoundsChange b st
  end.

Definition step (st : State) (e : Event) : State :=
  flushWatcher (handle st e).

Definition run (evs : list Event) : State := fold_left step evs init.

End Handlers.

End App.

(** *** The application before the refactoring: fixed bounds, the samples
    cleared by the handlers themselves, a sampling grid of its own. *)

Module LegacyApp.

Definition bounds : Bounds := mkBounds (-3) 3 (-2) 2.

Record State : Type := mkState {
  points : list Point;
  samples : list Sample;
  selectedKernel : KernelId;
  params : list Slider;
  randomCalls : nat
}.

Definition init : State :=
  {| points := []; samples := []; selectedKernel := rbf;
     params := initialParams; randomCalls := O |}.

Definition gpParams (st : State) : Result Params :=
  computeGpParams (params st) (selectedKernel st).

Section Handlers.

Variable random : nat -> R.
Variable sampleFromGP : Sampler.

Definition addPoint (point : Point) (st : State) : State :=
  mkState (points st ++ [point]) [] (selectedKernel st) (params st)
    (randomCalls st).

Definition addRandomPoints (st : State) : State :=
  let (pts, calls) :=
    addRandomLoop random bounds 5 (points st) (randomCalls st) in
  mkState pts [] (selectedKernel st) (params st) calls.

Definition sampleGP (st : State) : State :=
  let sampleX := Util.linspace (xMin bounds) (xMax bounds) 150 in
  match gpParams st with
  | Err _ => st
  | Ok p =>
      match sampleFromGP (points st) sampleX p (randomCalls st) with
      | (Err _, calls) =>
          mkState (points st) (samples st) (selectedKernel st) (params st)
            calls
      | (Ok sampleY, calls) =>
          mkState (points st)
            (pushSample (samples st) (mkSample sampleX sampleY))
            (selectedKernel st) (params st) calls
      end
  end.

Definition clearAll (st : State) : State :=
  mkState [] [] (selectedKernel st) (params st) (randomCalls st).

Definition updateParamValue (index : nat) (v : R) (st : State) : State :=
  match setParamValue (params st) index v with
  | Some (params', _) =>
      mkState (points st) (samples st) (selectedKernel st) params'
        (randomCalls st)
  | None => st
  end.

Definition updateKernel (k : KernelId) (st : State) : State :=
  mkState (points st) [] k (params st) (randomCalls st).

Inductive Event : Type :=
| AddPoint (point : Point)
| AddRandom
| SampleGP
| ClearAll
| UpdateParam (index : nat) (v : R)
| UpdateKernel (k : KernelId).

Definition step (st : State) (e : Event) : State :=
  match e with
  | AddPoint p => addPoint p st
  | AddRandom => addRandomPoints st
  | SampleGP => sampleGP st
  | ClearAll => clearAll st
  | UpdateParam i v => updateParamValue i v st
  | UpdateKernel k => updateKernel k st
  end.

Definition run (evs : list Event) : State := fold_left step evs init.

End Handlers.

End LegacyApp.

(** * Specification vocabulary *)

(** What the spec calls a linear space of [n] points from [a] to [b]. *)
Definition EvenGrid (a b : R) (n : nat) (g : list R) : Prop :=
  length g = n
  /\ nth 0 g 0 = a
  /\ nth (n - 1) g 0 = b
  /\ (forall i, (S i < n)%nat -> nth i g 0 < nth (S i) g 0)
  /\ (forall i, (S i < n)%nat ->
        nth (S i) g 0 - nth i g 0 = (b - a) / INR (n - 1)).

(** The parameter record of the data model: positive length scale and
    signal variance, non-negative noise level. *)
Definition validParams (p : Params) : Prop :=
  0 < lengthScale p /\ 0 < signalVariance p /\ 0 <= noiseLevel p.

(** The zoom level is within its limits. *)
Definition zoomInRange (st : GPCanvas.State) : Prop :=
  GPCanvas.MIN_ZOOM <= GPCanvas.zoomLevel st <= GPCanvas.MAX_ZOOM.

(** A visible range that is not degenerate. *)
Definition boundsWellFormed (b : Bounds) : Prop :=
  xMin b < xMax b /\ yMin b < yMax b.

(** A point lies in the rectangle of the bounds. *)
Definition inBounds (b : Bounds) (pt : Point) : Prop :=
  xMin b <= px pt <= xMax b /\ yMin b <= py pt <= yMax b.

(** The sample history holds at most five samples. *)
Definition capped (l : list Sample) : Prop := (length l <= 5)%nat.

(** A sampler that returns the grid it is called on: what [sampleGP] stores
    as the [y] of the new sample is then the grid it passed to the sampler. *)
Definition echoGrid : Sampler := fun _ grid _ calls => (Ok grid, calls).

(** The visible range that [updateBounds] computes from a zoom level and a
    pan offset. *)
Definition viewBounds (zoom : R) (pan : GPCanvas.Pos) : Bounds :=
  GPCanvas.bounds
    (GPCanvas.updateBounds
       (GPCanvas.setPanOffset pan (GPCanvas.setZoomLevel zoom GPCanvas.init))).

(** The bounds are the ones [updateBounds] computes from the current zoom
    level and pan offset. *)
Definition inSync (st : GPCanvas.State) : Prop :=
  GPCanvas.bounds st
  = viewBounds (GPCanvas.zoomLevel st) (GPCanvas.panOffset st).

(** The world: the default view scaled by [MAX_SCALE_FACTOR]. *)
Definition inWorld (b : Bounds) : Prop :=
  -12 <= xMin b /\ xMax b <= 12 /\ -8 <= yMin b /\ yMax b <= 8.

(** The runs on a sized canvas: the first event is the resize that
    [setupCanvas] handles when the component is mounted, and every resize
    gives the canvas a positive width and height.  On such runs no handler
    divides by a zero width or height, where the source yields NaN or
    Infinity and the division of the reals does not. *)
Definition positiveResize (e : GPCanvas.Event) : Prop :=
  match e with
  | GPCanvas.Resize w h => 0 < w /\ 0 < h
  | _ => True
  end.

Definition sizedRun (evs : list GPCanvas.Event) : Prop :=
  match evs with
  | [] => True
  | e :: _ => (exists w h, e = GPCanvas.Resize w h)
              /\ Forall positiveResize evs
  end.

(** The two-finger touch move. *)
Definition isPinch (e : GPCanvas.Event) : bool :=
  match e with
  | GPCanvas.TouchMove [_; _] => true
  | _ => false
  end.

(** The pan limits of [clampPanOffset] at zoom level [z]. *)
Definition maxPanX (z : R) : R := 12 - 3 / z.

(** The same limit on the y axis. *)
Definition maxPanY (z : R) : R := 8 - 2 / z.

(** The vertices of the paths a list of context calls traces. *)
Definition vertices (ops : list GPCanvas.CanvasOp) : list (R * R) :=
  flat_map (fun op =>
              match op with
              | GPCanvas.MoveTo x y | GPCanvas.LineTo x y => [(x, y)]
              | _ => []
              end) ops.

(** The stroke styles a list of context calls sets, in order. *)
Definition strokeStyles (ops : list GPCanvas.CanvasOp) : list String.string :=
  flat_map (fun op =>
              match op with
              | GPCanvas.SetStrokeStyle c => [c]
              | _ => []
              end) ops.

(** [colors[s % colors.length]]. *)
Definition sampleColor (s : nat) : String.string :=
  nth (s mod length GPCanvas.colors) GPCanvas.colors ""%string.

(** The attributes of a slider that no operation writes. *)
Definition sliderFrame (p : Slider) : ParamKey * R * R * R :=
  (key p, vmin p, vmax p, vstep p).

(** The sampler returns as many values as the grid has points. *)
Definition returnsGridLength (sampleFromGP : Sampler) : Prop :=
  forall points grid params calls sampleY calls',
    sampleFromGP points grid params calls = (Ok sampleY, calls') ->
    length sampleY = length grid.

(** Both arrays of a sample have [n] entries. *)
Definition sampleOnGrid (n : nat) (s : Sample) : Prop :=
  length (sx s) = n /\ length (sy s) = n.

(** The effect of one event on the number of observation points. *)
Definition countStep (n : nat) (e : App.Event) : nat :=
  match e with
  | App.AddPoint _ => S n
  | App.AddRandom => (n + 5)%nat
  | App.ClearAll => O
  | _ => n
  end.

(** The number of observation points an event sequence leaves. *)
Definition countObservations (evs : list App.Event) : nat :=
  fold_left countStep evs O.

(** * Properties *)

(** ** The linear space *)

Lemma linspace_length (a b : R) (n : nat) :
  length (Util.linspace a b n) = n.
Proof.
  unfold Util.linspace.
  destruct (Nat.eqb n 1) eqn:E.
  - apply Nat.eqb_eq in E. now subst.
  - now rewrite length_map, length_seq.
Qed.

Lemma linspace_nth (a b : R) (n i : nat) :
  n <> 1%nat -> (i < n)%nat ->
  nth i (Util.linspace a b n) 0 = a + INR i * ((b - a) / INR (n - 1)).
Proof.
  intros Hn Hi. unfold Util.linspace.
  apply Nat.eqb_neq in Hn. rewrite Hn.
  set (f := fun k : nat => a + INR k * ((b - a) / INR (n - 1))).
  rewrite (nth_indep _ 0 (f O)) by now rewrite length_map, length_seq.
  rewrite map_nth. unfold f at 1. now rewrite seq_nth.
Qed.


Lemma linspace_even_grid (a b : R) (n : nat) :
  (2 <= n)%nat -> a < b -> EvenGrid a b n (Util.linspace a b n).
Proof.
  intros Hn Hab.
  assert (Hpos : 0 < INR (n - 1)) by (apply lt_0_INR; lia).
  assert (Hstep : 0 < (b - a) / INR (n - 1))
    by (apply Rdiv_lt_0_compat; lra).
  repeat split.
  - apply linspace_length.
  - rewrite linspace_nth by lia. simpl. lra.
  - rewrite linspace_nth by lia. field. lra.
  - intros i Hi. rewrite !linspace_nth by lia. rewrite S_INR. nra.
  - intros i Hi. rewrite !linspace_nth by lia. rewrite S_INR. lra.
Qed.

(** C6. The display test grid, in App.vue and in the canvas component, is
    [linspace(bounds.xMin, bounds.xMax, 300)]: exactly 300 reals, the first
    the minimum of the visible range and the last its maximum, strictly
    increasing and evenly spaced, whenever [xMin < xMax]. *)
Theorem display_grid_linspace (ast : App.State) (cst : GPCanvas.State) :
  xMin (App.bounds ast) < xMax (App.bounds ast) ->
  xMin (GPCanvas.bounds cst) < xMax (GPCanvas.bounds cst) ->
  (App.testX ast
   = Util.linspace (xMin (App.bounds ast)) (xMax (App.bounds ast)) 300
   /\ EvenGrid (xMin (App.bounds ast)) (xMax (App.bounds ast)) 300
        (App.testX ast))
  /\ (GPCanvas.testX cst
      = Util.linspace (xMin (GPCanvas.bounds cst))
          (xMax (GPCanvas.bounds cst)) 300
      /\ EvenGrid (xMin (GPCanvas.bounds cst)) (xMax (GPCanvas.bounds cst))
           300 (GPCanvas.testX cst)).
Proof.
  intros Ha Hc. split; (split; [reflexivity|]).
  - apply linspace_even_grid; [unfold App.numTest; lia | exact Ha].
  - apply linspace_even_grid; [unfold GPCanvas.numTest; lia | exact Hc].
Qed.

Lemma display_grid_linspace_witness :
  EvenGrid (-3) 3 300 (App.testX App.init)
  /\ EvenGrid (-3) 3 300 (GPCanvas.testX GPCanvas.init).
Proof.
  destruct (display_grid_linspace App.init GPCanvas.init) as [[_ H1] [_ H2]].
  - simpl. lra.
  - simpl. lra.
  - split; [exact H1 | exact H2].
Defined.

(** ** The canvas coordinate transforms *)

(** C8. With a canvas of positive size and a non-degenerate visible range,
    the data-to-canvas and canvas-to-data transforms are inverse to each
    other, in both directions and on both axes. *)
Theorem canvas_transforms_round_trip (st : GPCanvas.State) (x y cx cy : R) :
  0 < GPCanvas.width st ->
  0 < GPCanvas.height st ->
  xMin (GPCanvas.bounds st) < xMax (GPCanvas.bounds st) ->
  yMin (GPCanvas.bounds st) < yMax (GPCanvas.bounds st) ->
  GPCanvas.toDataX st (GPCanvas.toCanvasX st x) = x
  /\ GPCanvas.toCanvasX st (GPCanvas.toDataX st cx) = cx
  /\ GPCanvas.toDataY st (GPCanvas.toCanvasY st y) = y
  /\ GPCanvas.toCanvasY st (GPCanvas.toDataY st cy) = cy.
Proof.
  intros Hw Hh Hx Hy.
  unfold GPCanvas.toDataX, GPCanvas.toCanvasX, GPCanvas.toDataY,
    GPCanvas.toCanvasY.
  repeat split; field; lra.
Qed.

Lemma canvas_transforms_round_trip_witness :
  let st := GPCanvas.setupCanvas 800 500 GPCanvas.init in
  GPCanvas.toDataX st (GPCanvas.toCanvasX st 1) = 1
  /\ GPCanvas.toCanvasX st (GPCanvas.toDataX st 200) = 200
  /\ GPCanvas.toDataY st (GPCanvas.toCanvasY st (-1)) = -1
  /\ GPCanvas.toCanvasY st (GPCanvas.toDataY st 125) = 125.
Proof.
  intro st.
  apply (canvas_transforms_round_trip st 1 (-1) 200 125); simpl; lra.
Defined.

(** ** The zoom level *)

Lemma clampZoom_range (z : R) :
  GPCanvas.MIN_ZOOM <= GPCanvas.clampZoom z <= GPCanvas.MAX_ZOOM.
Proof.
  unfold GPCanvas.clampZoom, GPCanvas.MIN_ZOOM, GPCanvas.MAX_ZOOM,
    GPCanvas.MAX_SCALE_FACTOR.
  split.
  - apply Rmax_l.
  - apply Rmax_lub; [lra | apply Rmin_l].
Qed.


Lemma step_zoomInRange (st : GPCanvas.State) (e : GPCanvas.Event) :
  zoomInRange st -> zoomInRange (GPCanvas.step st e).
Proof.
  unfold zoomInRange. intros H.
  destruct e; simpl; try exact H.
  - unfold GPCanvas.handleClick. now destruct (GPCanvas.hasDragged st).
  - unfold GPCanvas.handleWheel.
    destruct (Req_dec_T _ _); [exact H | simpl; apply clampZoom_range].
  - unfold GPCanvas.handleMouseDown. now destruct (Nat.eqb detail 2).
  - unfold GPCanvas.handleMouseMove.
    destruct (GPCanvas.isDragging st); [|exact H].
    destruct (Rlt_dec _ _); [exact H|]. destruct (Rlt_dec _ _); exact H.
  - unfold GPCanvas.MIN_ZOOM, GPCanvas.MAX_ZOOM, GPCanvas.MAX_SCALE_FACTOR.
    lra.
  - destruct touches as [|t0 [|t1 [|t2 ts]]]; exact H.
  - destruct touches as [|t0 [|t1 [|t2 ts]]]; try exact H.
    + simpl. now destruct (GPCanvas.isDragging st).
    + unfold GPCanvas.handleTouchMove, GPCanvas.pinch.
      destruct (Rlt_dec _ _); [|exact H].
      destruct (Req_dec_T _ _); [exact H | simpl; apply clampZoom_range].
Qed.

(** C9. From the initial zoom level 1.0, after any sequence of resize,
    click, wheel, mouse and touch events the zoom level stays in
    [[0.25, 3.0]]; a double click restores the zoom level 1.0, the pan
    offset (0, 0) and with them the default bounds. *)
Theorem zoom_level_invariant :
  GPCanvas.zoomLevel GPCanvas.init = 1
  /\ GPCanvas.MIN_ZOOM = 25 / 100 /\ GPCanvas.MAX_ZOOM = 3
  /\ (forall evs : list GPCanvas.Event,
        GPCanvas.MIN_ZOOM <= GPCanvas.zoomLevel (GPCanvas.run evs)
        <= GPCanvas.MAX_ZOOM)
  /\ (forall st : GPCanvas.State,
        GPCanvas.zoomLevel (GPCanvas.handleDoubleClick st) = 1
        /\ GPCanvas.panOffset (GPCanvas.handleDoubleClick st)
           = GPCanvas.mkPos 0 0
        /\ GPCanvas.bounds (GPCanvas.handleDoubleClick st)
           = GPCanvas.defaultBounds).
Proof.
  split; [reflexivity|].
  split; [unfold GPCanvas.MIN_ZOOM, GPCanvas.MAX_SCALE_FACTOR; lra|].
  split; [reflexivity|].
  split.
  - intros evs. unfold GPCanvas.run.
    assert (Hinit : zoomInRange GPCanvas.init).
    { unfold zoomInRange, GPCanvas.MIN_ZOOM, GPCanvas.MAX_ZOOM,
        GPCanvas.MAX_SCALE_FACTOR. simpl. lra. }
    revert Hinit. generalize GPCanvas.init.
    induction evs as [|e evs IH]; intros st Hst; simpl.
    + exact Hst.
    + apply IH. now apply step_zoomInRange.
  - intros st. repeat split.
    unfold GPCanvas.handleDoubleClick, GPCanvas.updateBounds,
      GPCanvas.defaultBounds. simpl.
    f_equal; field.
Qed.

(** The bounds the canvas computes are never degenerate: the range
    hypotheses of the grid and round-trip properties hold in every state the
    sized canvas reaches. *)
Lemma updateBounds_well_formed (st : GPCanvas.State) :
  0 < GPCanvas.zoomLevel st ->
  boundsWellFormed (GPCanvas.bounds (GPCanvas.updateBounds st)).
Proof.
  intros Hz. unfold boundsWellFormed, GPCanvas.updateBounds. simpl.
  assert (Hx : 0 < (3 - -3) / (2 * GPCanvas.zoomLevel st))
    by (apply Rdiv_lt_0_compat; lra).
  assert (Hy : 0 < (2 - -2) / (2 * GPCanvas.zoomLevel st))
    by (apply Rdiv_lt_0_compat; lra).
  split; lra.
Qed.

Lemma zoomInRange_pos (st : GPCanvas.State) :
  zoomInRange st -> 0 < GPCanvas.zoomLevel st.
Proof.
  unfold zoomInRange, GPCanvas.MIN_ZOOM, GPCanvas.MAX_SCALE_FACTOR. lra.
Qed.

Lemma step_bounds_well_formed (st : GPCanvas.State) (e : GPCanvas.Event) :
  zoomInRange st ->
  boundsWellFormed (GPCanvas.bounds st) ->
  boundsWellFormed (GPCanvas.bounds (GPCanvas.step st e)).
Proof.
  intros Hz H.
  pose proof (zoomInRange_pos st Hz) as Hpos.
  pose proof (step_zoomInRange st e Hz) as Hz'.
  apply zoomInRange_pos in Hz'.
  destruct e; cbn [GPCanvas.step] in *; try exact H.
  - unfold GPCanvas.handleClick. now destruct (GPCanvas.hasDragged st).
  - unfold GPCanvas.handleWheel in *.
    destruct (Req_dec_T _ _); [exact H|].
    apply updateBounds_well_formed. exact Hz'.
  - unfold GPCanvas.handleMouseDown. now destruct (Nat.eqb detail 2).
  - unfold GPCanvas.handleMouseMove in *.
    destruct (GPCanvas.isDragging st); [|exact H].
    apply updateBounds_well_formed. exact Hz'.
  - apply updateBounds_well_formed. exact Hz'.
  - destruct touches as [|t0 [|t1 [|t2 ts]]]; exact H.
  - destruct touches as [|t0 [|t1 [|t2 ts]]]; try exact H.
    + cbn [GPCanvas.handleTouchMove] in *.
      destruct (GPCanvas.isDragging st); [|exact H].
      apply updateBounds_well_formed. exact Hz'.
    + unfold GPCanvas.handleTouchMove, GPCanvas.pinch in *.
      destruct (Rlt_dec _ _); [|exact H].
      destruct (Req_dec_T _ _); [exact H|].
      apply updateBounds_well_formed. exact Hz'.
Qed.

Lemma canvas_bounds_well_formed (evs : list GPCanvas.Event) :
  sizedRun evs ->
  boundsWellFormed (GPCanvas.bounds (GPCanvas.run evs)).
Proof.
  intros _. unfold GPCanvas.run.
  assert (Hinit : zoomInRange GPCanvas.init
                  /\ boundsWellFormed (GPCanvas.bounds GPCanvas.init)).
  { unfold zoomInRange, boundsWellFormed, GPCanvas.MIN_ZOOM, GPCanvas.MAX_ZOOM,
      GPCanvas.MAX_SCALE_FACTOR. simpl. lra. }
  revert Hinit. generalize GPCanvas.init.
  induction evs as [|e evs IH]; intros st [Hz Hb]; simpl.
  - exact Hb.
  - apply IH. split.
    + now apply step_zoomInRange.
    + now apply step_bounds_well_formed.
Qed.

(** ** The posterior *)


(** Self-covariance: each of the four kernels returns the signal variance
    at distance zero. *)
Lemma kernel_self (p : Params) (x : R) :
  Kernels.resolveKernel p x x = signalVariance p.
Proof.
  unfold Kernels.resolveKernel.
  assert (Hr : Kernels.scaledDist (lengthScale p) x x = 0).
  { unfold Kernels.scaledDist. replace (x - x) with 0 by lra.
    rewrite Rabs_R0. unfold Rdiv. apply Rmult_0_l. }
  destruct (kernel p);
    unfold Kernels.k_rbf, Kernels.k_matern12, Kernels.k_matern32,
      Kernels.k_matern52; cbv zeta; rewrite Hr.
  - replace (- (0 * 0) / 2) with 0 by lra. rewrite exp_0. lra.
  - rewrite Ropp_0, exp_0. lra.
  - rewrite Rmult_0_r, Ropp_0, exp_0. lra.
  - rewrite Rmult_0_r, Ropp_0, exp_0. lra.
Qed.

(** C1. Without observations the posterior is the prior: the call
    succeeds, and at every test point the mean is 0 and the variance is the
    signal variance. *)
Theorem posterior_of_no_observation (testX : list R) (params : Params)
  (i : nat) :
  (i < length testX)%nat ->
  exists post,
    GP.computePosterior [] testX params = Ok post
    /\ nth_error (mean post) i = Some 0
    /\ nth_error (variance post) i = Some (signalVariance params).
Proof.
  intros Hi. eexists. split; [reflexivity|]. simpl.
  destruct (nth_error testX i) as [t|] eqn:Et.
  - split; rewrite nth_error_map, Et; reflexivity.
  - apply nth_error_None in Et. lia.
Qed.

Lemma posterior_of_no_observation_witness :
  exists post,
    GP.computePosterior [] [-1; 0; 1] (mkParams 1 2 (1 / 10) matern32)
    = Ok post
    /\ nth_error (mean post) 2 = Some 0
    /\ nth_error (variance post) 2 = Some 2.
Proof.
  apply (posterior_of_no_observation [-1; 0; 1]
           (mkParams 1 2 (1 / 10) matern32) 2).
  simpl. lia.
Defined.

Lemma choleskyRows_step_ok (n : nat) (Ai : Vec) (rest acc : Matrix) (d : R) :
  Util.pivot Ai acc = d -> 0 < d ->
  Util.choleskyRows n (Ai :: rest) acc
  = Util.choleskyRows n rest
      (acc ++ [Util.choleskyOffDiag Ai acc [] ++ sqrt d
                 :: repeat 0 (n - S (length acc))]).
Proof.
  intros Hd Hpos. simpl. rewrite Hd.
  destruct (Rle_dec d 0); [lra | reflexivity].
Qed.

(** The concrete scenario of the spec: one observation [(0, 1)], unit
    length scale and signal variance, noise level 0.1, RBF kernel, one test
    point at 0.  The mean is 1/1.01 and the variance 1 - 1/1.01. *)
Lemma posterior_one_observation :
  GP.computePosterior [mkPoint 0 1] [0] (mkParams 1 1 (1 / 10) rbf)
  = Ok (mkPosterior [100 / 101] [1 / 101]).
Proof.
  unfold GP.computePosterior, Util.cholesky, GP.buildK, GP.buildKstar,
    GP.column.
  cbn [length map seq nth firstn px py Nat.eqb].
  rewrite !kernel_self.
  cbn [signalVariance noiseLevel].
  rewrite (choleskyRows_step_ok _ _ _ _ (101 / 100));
    [ | unfold Util.pivot; simpl; lra | lra ].
  cbn [Util.choleskyRows bind Util.choleskyOffDiag app repeat length Nat.sub].
  unfold Util.choleskySolve, Util.solveLt, Util.solveL, Util.dot, entry.
  cbn [length seq rev app fold_left nth sumf Nat.sub Nat.add map].
  set (s := sqrt (101 / 100)).
  assert (Hs : s * s = 101 / 100) by (apply sqrt_sqrt; lra).
  assert (Hp : 0 < s) by (apply sqrt_lt_R0; lra).
  f_equal. f_equal; f_equal.
  - replace (0 + 1 * (((1 - 0) / s - 0) / s)) with (1 / (s * s))
      by (field; lra).
    rewrite Hs. lra.
  - replace (0 + (1 - 0) / s * ((1 - 0) / s)) with (1 / (s * s))
      by (field; lra).
    rewrite Hs. rewrite Rmax_right; lra.
Qed.

(** C2. Whenever [computePosterior] succeeds on a valid parameter record,
    the mean and the variance have the length of the test grid and no
    variance is negative. *)
Theorem posterior_shape_and_sign (observations : list Point)
  (testX : list R) (params : Params) (post : Posterior) :
  validParams params ->
  GP.computePosterior observations testX params = Ok post ->
  length (mean post) = length testX
  /\ length (variance post) = length testX
  /\ Forall (fun v => 0 <= v) (variance post).
Proof.
  intros (_ & Hs & _) H.
  unfold GP.computePosterior in H.
  destruct observations as [|o obs].
  - injection H as <-. simpl. rewrite !length_map.
    repeat split. apply Forall_forall. intros v Hv.
    apply in_map_iff in Hv. destruct Hv as (_ & <- & _). lra.
  - destruct (Util.cholesky _) as [L|e]; simpl in H; [|discriminate].
    injection H as <-. simpl. rewrite !length_map, !length_seq.
    repeat split. apply Forall_forall. intros v Hv.
    apply in_map_iff in Hv. destruct Hv as (j & <- & _).
    apply Rmax_l.
Qed.

Lemma posterior_shape_and_sign_witness :
  let post := mkPosterior [100 / 101] [1 / 101] in
  length (mean post) = length [0]
  /\ length (variance post) = length [0]
  /\ Forall (fun v => 0 <= v) (variance post).
Proof.
  intros post.
  apply (posterior_shape_and_sign [mkPoint 0 1] [0]
           (mkParams 1 1 (1 / 10) rbf) post).
  - unfold validParams. simpl. lra.
  - apply posterior_one_observation.
Defined.

(** ** Failure of the factorization *)


Lemma choleskyRows_app (n : nat) (l1 l2 : Matrix) (acc : Matrix) :
  Util.choleskyRows n (l1 ++ l2) acc
  = (L <- Util.choleskyRows n l1 acc ;; Util.choleskyRows n l2 L).
Proof.
  revert acc. induction l1 as [|Ai l1 IH]; intros acc; simpl.
  - reflexivity.
  - destruct (Rle_dec _ _); [reflexivity | apply IH].
Qed.

Lemma choleskyRows_length (n : nat) (todo acc L : Matrix) :
  Util.choleskyRows n todo acc = Ok L ->
  length L = (length acc + length todo)%nat.
Proof.
  revert acc. induction todo as [|Ai todo IH]; intros acc H; simpl in *.
  - injection H as <-. lia.
  - destruct (Rle_dec _ _); [discriminate|].
    apply IH in H. rewrite length_app in H. simpl in H. lia.
Qed.

Lemma choleskyUpTo_rows (A L : Matrix) (i : nat) :
  (i <= length A)%nat -> Util.choleskyUpTo A i = Ok L -> length L = i.
Proof.
  intros Hi H. apply choleskyRows_length in H.
  rewrite length_firstn in H. simpl in H. lia.
Qed.

Lemma split_at_row (A : Matrix) (i : nat) :
  (i < length A)%nat ->
  A = firstn i A ++ nth i A [] :: skipn (S i) A.
Proof.
  revert i. induction A as [|a A IH]; intros i Hi; simpl in Hi.
  - lia.
  - destruct i as [|i]; simpl.
    + reflexivity.
    + f_equal. apply IH. lia.
Qed.

(** C5. If the factorization of a matrix reaches row [i] and the diagonal
    pivot of that row is not positive, [cholesky] fails with the
    not-positive-definite error, and the engine returns that error instead
    of a result from both of its operations: [computePosterior] and
    [sampleFromGP] on every non-empty observation set whose covariance
    matrix this is, and [sampleFromGP] when this is the jittered covariance
    of the sample points, whatever the normal variates are. *)
Theorem nonpositive_pivot_fails (A : Matrix) (i : nat) (Lprev : Matrix) :
  (i < length A)%nat ->
  Util.choleskyUpTo A i = Ok Lprev ->
  Util.pivot (nth i A []) Lprev <= 0 ->
  Util.cholesky A = Err NotPositiveDefiniteError
  /\ (forall observations testX params,
        observations <> [] ->
        GP.buildK observations params = A ->
        GP.computePosterior observations testX params
        = Err NotPositiveDefiniteError)
  /\ (forall observations sampleX params z,
        observations <> [] ->
        GP.buildK observations params = A ->
        GP.sampleFromGP observations sampleX params z
        = Err NotPositiveDefiniteError)
  /\ (forall observations sampleX params z mean covariance,
        GP.posteriorMoments observations sampleX params
        = Ok (mean, covariance) ->
        GP.addJitter covariance = A ->
        GP.sampleFromGP observations sampleX params z
        = Err NotPositiveDefiniteError).
Proof.
  intros Hi Hup Hp.
  assert (HA : Util.cholesky A = Err NotPositiveDefiniteError).
  { unfold Util.cholesky, Util.choleskyUpTo in *.
    rewrite (split_at_row A i Hi) at 2.
    rewrite choleskyRows_app, Hup. simpl.
    destruct (Rle_dec _ _) as [_|Hn]; [reflexivity | contradiction]. }
  split; [exact HA|]. split; [|split].
  - intros observations testX params Hne HK.
    unfold GP.computePosterior.
    destruct observations as [|o obs]; [contradiction|].
    rewrite HK, HA. reflexivity.
  - intros observations sampleX params z Hne HK.
    unfold GP.sampleFromGP, GP.posteriorMoments.
    destruct observations as [|o obs]; [contradiction|].
    rewrite HK, HA. reflexivity.
  - intros observations sampleX params z mean covariance Hm HS.
    unfold GP.sampleFromGP. rewrite Hm. cbn [bind snd].
    rewrite HS, HA. reflexivity.
Qed.

(** The concrete scenario of the spec: two observations at the same [x]
    with noise level 0.  The first row factors; the pivot of the second row
    is 0. *)
Lemma duplicate_observations_first_row :
  Util.choleskyUpTo
    (GP.buildK [mkPoint 0 1; mkPoint 0 1] (mkParams 1 1 0 rbf)) 1
  = Ok [[1; 0]].
Proof.
  unfold Util.choleskyUpTo, GP.buildK.
  cbn [length map seq nth firstn px Nat.eqb].
  rewrite !kernel_self.
  cbn [signalVariance noiseLevel].
  rewrite (choleskyRows_step_ok _ _ _ _ 1);
    [ | unfold Util.pivot; simpl; lra | lra ].
  simpl. now rewrite sqrt_1.
Qed.

Lemma duplicate_observations_second_pivot :
  Util.pivot
    (nth 1 (GP.buildK [mkPoint 0 1; mkPoint 0 1] (mkParams 1 1 0 rbf)) [])
    [[1; 0]] <= 0.
Proof.
  unfold GP.buildK.
  cbn [length map seq nth px Nat.eqb].
  rewrite !kernel_self.
  cbn [signalVariance noiseLevel].
  unfold Util.pivot. simpl. lra.
Qed.

(** A covariance of the sample points that does not factor: a signal
    variance of -1, outside the data model, with one sample point. *)
Lemma negative_variance_pivot :
  Util.pivot
    (nth 0 (GP.addJitter (GP.buildKss [0] (mkParams 1 (-1) 0 rbf))) []) []
  <= 0.
Proof.
  unfold GP.addJitter, GP.buildKss, GP.jitter.
  cbn [map mapi_from nth Nat.eqb].
  rewrite kernel_self. cbn [signalVariance].
  unfold Util.pivot. simpl. lra.
Qed.

Lemma nonpositive_pivot_fails_witness :
  let observations := [mkPoint 0 1; mkPoint 0 1] in
  let params := mkParams 1 1 0 rbf in
  (Util.cholesky (GP.buildK observations params)
   = Err NotPositiveDefiniteError
   /\ GP.computePosterior observations [0] params
      = Err NotPositiveDefiniteError
   /\ GP.sampleFromGP observations [0] params [0]
      = Err NotPositiveDefiniteError)
  /\ GP.sampleFromGP [] [0] (mkParams 1 (-1) 0 rbf) [0]
     = Err NotPositiveDefiniteError.
Proof.
  intros observations params. split.
  - destruct (nonpositive_pivot_fails (GP.buildK observations params) 1
                [[1; 0]]) as (H1 & H2 & H3 & _).
    + simpl. lia.
    + apply duplicate_observations_first_row.
    + apply duplicate_observations_second_pivot.
    + split; [exact H1|].
      split; [apply H2 | apply H3]; (discriminate || reflexivity).
  - destruct (nonpositive_pivot_fails
                (GP.addJitter (GP.buildKss [0] (mkParams 1 (-1) 0 rbf)))
                0 []) as (_ & _ & _ & H4).
    + simpl. lia.
    + reflexivity.
    + apply negative_variance_pivot.
    + apply (H4 [] [0] (mkParams 1 (-1) 0 rbf) [0] [0]
               (GP.buildKss [0] (mkParams 1 (-1) 0 rbf)));
        reflexivity.
Defined.

(** On success [sampleFromGP] returns one value per sample point. *)
Lemma sampleFromGP_length (observations : list Point) (sampleX : list R)
  (params : Params) (z ySample : Vec) :
  GP.sampleFromGP observations sampleX params z = Ok ySample ->
  length ySample = length sampleX.
Proof.
  unfold GP.sampleFromGP. intros H.
  destruct (GP.posteriorMoments _ _ _) as [moments|e]; [|discriminate].
  cbn [bind] in H.
  destruct (Util.cholesky _) as [LS|e]; [|discriminate].
  injection H as <-. now rewrite length_map, length_seq.
Qed.

(** ** The observation points *)



Lemma addRandomLoop_spec (random : nat -> R) (b : Bounds) (todo : nat)
  (points : list Point) (calls : nat) :
  (forall k, 0 <= random k < 1) ->
  xMin b <= xMax b -> yMin b <= yMax b ->
  exists new,
    addRandomLoop random b todo points calls
    = (points ++ new, (calls + 2 * todo)%nat)
    /\ length new = todo
    /\ Forall (inBounds b) new.
Proof.
  intros Hr Hx Hy. revert points calls.
  induction todo as [|todo IH]; intros points calls; simpl.
  - exists []. rewrite app_nil_r, Nat.add_0_r. now repeat split.
  - destruct (IH (points ++
        [mkPoint (xMin b + random calls * (xMax b - xMin b))
                 (yMin b + random (S calls) * (yMax b - yMin b))])
        (S (S calls))) as (new & E & Hl & Hin).
    eexists (_ :: new). rewrite E, <- app_assoc. simpl.
    split; [f_equal; lia|]. split; [now rewrite Hl|].
    constructor; [|exact Hin].
    pose proof (Hr calls). pose proof (Hr (S calls)).
    unfold inBounds; simpl. repeat split; nra.
Qed.

(** C10. With [Math.random] drawing from [[0, 1)] and well-formed current
    bounds, [addRandomPoints] appends exactly five points, each within the
    bounds, after the existing points, which keep their values and order:
    the point count grows by exactly five.  Both versions of App.vue. *)
Theorem addRandomPoints_appends_five (random : nat -> R)
  (ast : App.State) (lst : LegacyApp.State) :
  (forall k, 0 <= random k < 1) ->
  xMin (App.bounds ast) <= xMax (App.bounds ast) ->
  yMin (App.bounds ast) <= yMax (App.bounds ast) ->
  (exists new,
      App.points (fst (App.addRandomPoints random ast))
      = App.points ast ++ new
      /\ length new = 5%nat
      /\ Forall (inBounds (App.bounds ast)) new
      /\ length (App.points (fst (App.addRandomPoints random ast)))
         = (length (App.points ast) + 5)%nat)
  /\ (exists new,
        LegacyApp.points (LegacyApp.addRandomPoints random lst)
        = LegacyApp.points lst ++ new
        /\ length new = 5%nat
        /\ Forall (inBounds LegacyApp.bounds) new
        /\ length (LegacyApp.points (LegacyApp.addRandomPoints random lst))
           = (length (LegacyApp.points lst) + 5)%nat).
Proof.
  intros Hr Hx Hy. split.
  - destruct (addRandomLoop_spec random (App.bounds ast) 5 (App.points ast)
                (App.randomCalls ast) Hr Hx Hy) as (new & E & Hl & Hin).
    exists new. unfold App.addRandomPoints. rewrite E. simpl.
    repeat split; try assumption. rewrite length_app. lia.
  - assert (Hx' : xMin LegacyApp.bounds <= xMax LegacyApp.bounds)
      by (simpl; lra).
    assert (Hy' : yMin LegacyApp.bounds <= yMax LegacyApp.bounds)
      by (simpl; lra).
    destruct (addRandomLoop_spec random LegacyApp.bounds 5
                (LegacyApp.points lst) (LegacyApp.randomCalls lst)
                Hr Hx' Hy') as (new & E & Hl & Hin).
    exists new. unfold LegacyApp.addRandomPoints. rewrite E. simpl.
    repeat split; try assumption. rewrite length_app. lia.
Qed.

Lemma addRandomPoints_appends_five_witness :
  exists new,
    App.points (fst (App.addRandomPoints (fun _ => 1 / 2) App.init)) = new
    /\ length new = 5%nat
    /\ Forall (inBounds (mkBounds (-3) 3 (-2) 2)) new.
Proof.
  destruct (addRandomPoints_appends_five (fun _ => 1 / 2) App.init
              LegacyApp.init) as [(new & E & Hl & Hin & _) _].
  - intros _. lra.
  - simpl. lra.
  - simpl. lra.
  - exists new. split; [exact E|]. split; [exact Hl | exact Hin].
Defined.

Lemma addRandomLoop_appends (random : nat -> R) (b : Bounds) (todo : nat)
  (points : list Point) (calls : nat) :
  exists new,
    fst (addRandomLoop random b todo points calls) = points ++ new
    /\ length new = todo.
Proof.
  revert points calls.
  induction todo as [|todo IH]; intros points calls; simpl.
  - exists []. now rewrite app_nil_r.
  - destruct (IH (points ++
        [mkPoint (xMin b + random calls * (xMax b - xMin b))
                 (yMin b + random (S calls) * (yMax b - yMin b))])
        (S (S calls))) as (new & E & Hl).
    eexists (_ :: new). rewrite E, <- app_assoc. simpl.
    split; [reflexivity | now rewrite Hl].
Qed.

Lemma App_flushWatcher_points (r : App.State * bool) :
  App.points (App.flushWatcher r) = App.points (fst r).
Proof. unfold App.flushWatcher. now destruct (snd r). Qed.

(** C7. Observation points are never modified and never removed one by
    one: every operation of the application either appends new points
    after the existing ones ([addPoint] one, [addRandomPoints] five),
    empties the whole set ([clearAll]), or leaves the set as it is.  Both
    versions of App.vue. *)
Theorem points_only_appended_or_cleared (random : nat -> R)
  (sampleFromGP : Sampler) :
  (forall (st : App.State) (e : App.Event),
      let st' := App.step random sampleFromGP st e in
      match e with
      | App.AddPoint p => App.points st' = App.points st ++ [p]
      | App.AddRandom =>
          exists new, length new = 5%nat
                      /\ App.points st' = App.points st ++ new
      | App.ClearAll => App.points st' = []
      | _ => App.points st' = App.points st
      end)
  /\ (forall (st : LegacyApp.State) (e : LegacyApp.Event),
        let st' := LegacyApp.step random sampleFromGP st e in
        match e with
        | LegacyApp.AddPoint p =>
            LegacyApp.points st' = LegacyApp.points st ++ [p]
        | LegacyApp.AddRandom =>
            exists new, length new = 5%nat
                        /\ LegacyApp.points st' = LegacyApp.points st ++ new
        | LegacyApp.ClearAll => LegacyApp.points st' = []
        | _ => LegacyApp.points st' = LegacyApp.points st
        end).
Proof.
  split; intros st e; cbv zeta.
  - unfold App.step. rewrite App_flushWatcher_points.
    destruct e; unfold App.handle; try reflexivity.
    + unfold App.addRandomPoints.
      destruct (addRandomLoop_appends random (App.bounds st) 5
                  (App.points st) (App.randomCalls st)) as (new & E & Hl).
      destruct (addRandomLoop _ _ _ _ _) as [pts calls]. simpl in *.
      exists new. now split.
    + unfold App.sampleGP. destruct (App.gpParams st); [|reflexivity].
      now destruct (sampleFromGP _ _ _ _) as [[ys|err] calls].
    + unfold App.updateParamValue.
      now destruct (setParamValue _ _ _) as [[params' changed]|].
  - destruct e; unfold LegacyApp.step; try reflexivity.
    + unfold LegacyApp.addRandomPoints.
      destruct (addRandomLoop_appends random LegacyApp.bounds 5
                  (LegacyApp.points st) (LegacyApp.randomCalls st))
        as (new & E & Hl).
      destruct (addRandomLoop _ _ _ _ _) as [pts calls]. simpl in *.
      exists new. now split.
    + unfold LegacyApp.sampleGP.
      destruct (LegacyApp.gpParams st); [|reflexivity].
      now destruct (sampleFromGP _ _ _ _) as [[ys|err] calls].
    + unfold LegacyApp.updateParamValue.
      now destruct (setParamValue _ _ _) as [[params' changed]|].
Qed.

(** ** The parameter record *)

Lemma setParamValue_keys (params params' : list Slider) (index : nat)
  (v : R) (changed : bool) :
  setParamValue params index v = Some (params', changed) ->
  map key params' = map key params.
Proof.
  revert index params' changed.
  induction params as [|p rest IH]; intros index params' changed H.
  - discriminate.
  - destruct index as [|i]; simpl in H.
    + injection H as <- _. reflexivity.
    + destruct (setParamValue rest i v) as [[rest' c]|] eqn:E;
        [|discriminate].
      injection H as <- _. simpl. f_equal. now apply (IH i rest' c).
Qed.

Lemma fixed_keys_gpParams (params : list Slider) (k : KernelId) :
  map key params = map key initialParams ->
  exists p, computeGpParams params k = Ok p.
Proof.
  intros H.
  destruct params as [|a [|b [|c [|d rest]]]]; try discriminate.
  simpl in H. injection H as Ha Hb Hc.
  unfold computeGpParams, findValue. simpl.
  rewrite Ha, Hb, Hc. simpl. eexists. reflexivity.
Qed.

Lemma App_step_keys (random : nat -> R) (sampleFromGP : Sampler)
  (st : App.State) (e : App.Event) :
  map key (App.params (App.step random sampleFromGP st e))
  = map key (App.params st).
Proof.
  unfold App.step, App.flushWatcher.
  destruct (snd _); cbn [App.params App.setSamples];
    (destruct e; unfold App.handle; try reflexivity;
     [ unfold App.sampleGP; destruct (App.gpParams st); [|reflexivity];
       now destruct (sampleFromGP _ _ _ _) as [[ys|err] calls]
     | unfold App.updateParamValue;
       destruct (setParamValue _ _ _) as [[params' changed]|] eqn:E;
       [ now apply setParamValue_keys in E | reflexivity ] ]).
Qed.

(** In every state the application reaches, the three parameters are
    found: [gpParams] does not throw. *)
Lemma App_gpParams_defined (random : nat -> R) (sampleFromGP : Sampler)
  (evs : list App.Event) :
  exists p, App.gpParams (App.run random sampleFromGP evs) = Ok p.
Proof.
  unfold App.gpParams. apply fixed_keys_gpParams.
  unfold App.run.
  assert (Hinit : map key (App.params App.init) = map key initialParams)
    by reflexivity.
  revert Hinit. generalize App.init.
  induction evs as [|e evs IH]; intros st Hst; simpl.
  - exact Hst.
  - apply IH. now rewrite App_step_keys.
Qed.

(** ** The sample history *)

Lemma pushSample_length (l : list Sample) (s : Sample) :
  (length l <= 5)%nat -> (length (pushSample l s) <= 5)%nat.
Proof.
  intros H. unfold pushSample.
  destruct (Nat.ltb 5 (length (l ++ [s]))) eqn:E.
  - destruct l as [|a l]; simpl in *; [lia|].
    rewrite length_app. simpl. lia.
  - apply Nat.ltb_ge in E. exact E.
Qed.

Lemma pushSample_below_cap (l : list Sample) (s : Sample) :
  (length l < 5)%nat -> pushSample l s = l ++ [s].
Proof.
  intros H. unfold pushSample.
  destruct (Nat.ltb 5 (length (l ++ [s]))) eqn:E; [|reflexivity].
  apply Nat.ltb_lt in E. rewrite length_app in E. simpl in E. lia.
Qed.

Lemma pushSample_at_cap (l : list Sample) (s : Sample) :
  length l = 5%nat -> pushSample l s = tl l ++ [s].
Proof.
  intros H. unfold pushSample.
  destruct (Nat.ltb 5 (length (l ++ [s]))) eqn:E.
  - destruct l; [discriminate | reflexivity].
  - apply Nat.ltb_ge in E. rewrite length_app in E. simpl in E. lia.
Qed.


Lemma App_step_capped (random : nat -> R) (sampleFromGP : Sampler)
  (st : App.State) (e : App.Event) :
  capped (App.samples st) ->
  capped (App.samples (App.step random sampleFromGP st e)).
Proof.
  unfold capped. intros H. unfold App.step, App.flushWatcher.
  destruct (snd _); [simpl; lia|].
  destruct e; unfold App.handle; try exact H.
  - unfold App.sampleGP. destruct (App.gpParams st); [|exact H].
    destruct (sampleFromGP _ _ _ _) as [[ys|err] calls]; [|exact H].
    simpl. now apply pushSample_length.
  - simpl. lia.
  - unfold App.updateParamValue.
    now destruct (setParamValue _ _ _) as [[params' changed]|].
Qed.

Lemma LegacyApp_step_capped (random : nat -> R) (sampleFromGP : Sampler)
  (st : LegacyApp.State) (e : LegacyApp.Event) :
  capped (LegacyApp.samples st) ->
  capped (LegacyApp.samples (LegacyApp.step random sampleFromGP st e)).
Proof.
  unfold capped. intros H.
  destruct e; unfold LegacyApp.step; try (simpl; lia).
  - unfold LegacyApp.sampleGP. destruct (LegacyApp.gpParams st); [|exact H].
    destruct (sampleFromGP _ _ _ _) as [[ys|err] calls]; [|exact H].
    simpl. now apply pushSample_length.
  - unfold LegacyApp.updateParamValue.
    now destruct (setParamValue _ _ _) as [[params' changed]|].
Qed.

(** C4. The sample history never holds more than five samples: the bound
    holds after every sequence of operations and is preserved by every
    operation; a sample action whose engine call returns appends exactly
    one sample [{x, y}] at the end, and evicts the oldest sample when the
    history already held five.  Both versions of App.vue. *)
Theorem sample_history_capped (random : nat -> R) (sampleFromGP : Sampler) :
  ((forall evs : list App.Event,
       capped (App.samples (App.run random sampleFromGP evs)))
   /\ (forall (st : App.State) (e : App.Event),
         capped (App.samples st) ->
         capped (App.samples (App.step random sampleFromGP st e)))
   /\ (forall (st : App.State) p sampleY calls,
         App.gpParams st = Ok p ->
         sampleFromGP (App.points st) (App.testX st) p (App.randomCalls st)
         = (Ok sampleY, calls) ->
         let s := mkSample (App.testX st) sampleY in
         let st' := App.step random sampleFromGP st App.SampleGP in
         ((length (App.samples st) < 5)%nat ->
          App.samples st' = App.samples st ++ [s])
         /\ (length (App.samples st) = 5%nat ->
             App.samples st' = tl (App.samples st) ++ [s])))
  /\ ((forall evs : list LegacyApp.Event,
          capped (LegacyApp.samples (LegacyApp.run random sampleFromGP evs)))
      /\ (forall (st : LegacyApp.State) (e : LegacyApp.Event),
            capped (LegacyApp.samples st) ->
            capped (LegacyApp.samples
                      (LegacyApp.step random sampleFromGP st e)))
      /\ (forall (st : LegacyApp.State) p sampleY calls,
            let sampleX :=
              Util.linspace (xMin LegacyApp.bounds) (xMax LegacyApp.bounds)
                150 in
            LegacyApp.gpParams st = Ok p ->
            sampleFromGP (LegacyApp.points st) sampleX p
              (LegacyApp.randomCalls st)
            = (Ok sampleY, calls) ->
            let s := mkSample sampleX sampleY in
            let st' := LegacyApp.step random sampleFromGP st
                         LegacyApp.SampleGP in
            ((length (LegacyApp.samples st) < 5)%nat ->
             LegacyApp.samples st' = LegacyApp.samples st ++ [s])
            /\ (length (LegacyApp.samples st) = 5%nat ->
                LegacyApp.samples st' = tl (LegacyApp.samples st) ++ [s]))).
Proof.
  split; (split; [|split]).
  - intros evs. unfold App.run.
    assert (Hinit : capped (App.samples App.init))
      by (unfold capped; simpl; lia).
    revert Hinit. generalize App.init.
    induction evs as [|e evs IH]; intros st Hst; simpl.
    + exact Hst.
    + apply IH. now apply App_step_capped.
  - intros st e. apply App_step_capped.
  - intros st p sampleY calls Hp Hs. cbv zeta.
    unfold App.step, App.handle, App.sampleGP. rewrite Hp, Hs.
    unfold App.flushWatcher. simpl.
    split; intros Hl.
    + now apply pushSample_below_cap.
    + now apply pushSample_at_cap.
  - intros evs. unfold LegacyApp.run.
    assert (Hinit : capped (LegacyApp.samples LegacyApp.init))
      by (unfold capped; simpl; lia).
    revert Hinit. generalize LegacyApp.init.
    induction evs as [|e evs IH]; intros st Hst; simpl.
    + exact Hst.
    + apply IH. now apply LegacyApp_step_capped.
  - intros st e. apply LegacyApp_step_capped.
  - intros st p sampleY calls sampleX Hp Hs. cbv zeta.
    unfold LegacyApp.step, LegacyApp.sampleGP. rewrite Hp.
    fold sampleX. rewrite Hs. simpl.
    split; intros Hl.
    + now apply pushSample_below_cap.
    + now apply pushSample_at_cap.
Qed.

Lemma sample_history_capped_witness :
  App.samples (App.step (fun _ => 0) echoGrid App.init App.SampleGP)
  = [mkSample (App.testX App.init) (App.testX App.init)].
Proof.
  destruct (sample_history_capped (fun _ => 0) echoGrid)
    as [(_ & _ & H) _].
  destruct (H App.init (mkParams 1 1 (1 / 10) rbf) (App.testX App.init) O)
    as [Hbelow _].
  - reflexivity.
  - reflexivity.
  - apply Hbelow. simpl. lia.
Defined.

(** ** The sampling grid and the display grid *)

(** C3, as stated, fails on the current App.vue: [sampleGP] passes
    [testX.value], the 300-point display grid, to [sampleFromGP].  With the
    sampler that echoes its grid, the sample stored by the first sample
    action has 300 values, not 150. *)
Lemma sampling_grid_is_not_150 :
  let st := App.step (fun _ => 0) echoGrid App.init App.SampleGP in
  map (fun s => length (sy s)) (App.samples st) = [300%nat]
  /\ ~ Forall (fun s => length (sy s) = 150%nat) (App.samples st).
Proof.
  cbv zeta.
  assert (E : App.samples
                (App.step (fun _ => 0) echoGrid App.init App.SampleGP)
              = [mkSample (App.testX App.init) (App.testX App.init)])
    by reflexivity.
  rewrite E.
  assert (L : length (App.testX App.init) = 300%nat)
    by apply linspace_length.
  split.
  - cbn [map sy]. now rewrite L.
  - intros F. inversion F as [|s l Hs _]; subst.
    cbn [sy] in Hs. rewrite L in Hs. discriminate.
Qed.

(** C3, amended.  In the current App.vue one grid serves both calls: the
    posterior is computed on the 300-point grid [testX], and [sampleGP]
    passes that same grid to [sampleFromGP] and stores it as the [x] of the
    sample.  In the earlier App.vue [sampleGP] passes a 150-point linear
    space over the fixed range of its constant bounds, while the canvas
    computes the posterior on its own 300-point grid. *)
Theorem sampling_and_display_grids (st : App.State) (lst : LegacyApp.State)
  (cst : GPCanvas.State) (p p' : Params) :
  App.gpParams st = Ok p ->
  LegacyApp.gpParams lst = Ok p' ->
  (App.posterior st = GP.computePosterior (App.points st) (App.testX st) p
   /\ App.samples (fst (App.sampleGP echoGrid st))
      = pushSample (App.samples st)
          (mkSample (App.testX st) (App.testX st))
   /\ length (App.testX st) = 300%nat)
  /\ (let sampleX := Util.linspace (-3) 3 150 in
      LegacyApp.samples (LegacyApp.sampleGP echoGrid lst)
      = pushSample (LegacyApp.samples lst) (mkSample sampleX sampleX)
      /\ length sampleX = 150%nat
      /\ GPCanvas.posterior (LegacyApp.points lst) p' cst
         = GP.computePosterior (LegacyApp.points lst) (GPCanvas.testX cst) p'
      /\ length (GPCanvas.testX cst) = 300%nat).
Proof.
  intros Hp Hp'. split; [split; [|split] | cbv zeta; split; [|split; [|split]]].
  - unfold App.posterior. now rewrite Hp.
  - unfold App.sampleGP. now rewrite Hp.
  - apply linspace_length.
  - unfold LegacyApp.sampleGP. now rewrite Hp'.
  - apply linspace_length.
  - reflexivity.
  - apply linspace_length.
Qed.

Lemma sampling_and_display_grids_witness :
  length (App.testX App.init) = 300%nat
  /\ length (Util.linspace (-3) 3 150) = 150%nat
  /\ length (GPCanvas.testX GPCanvas.init) = 300%nat.
Proof.
  destruct (sampling_and_display_grids App.init LegacyApp.init GPCanvas.init
              (mkParams 1 1 (1 / 10) rbf) (mkParams 1 1 (1 / 10) rbf))
    as [(_ & _ & H1) (_ & H2 & _ & H3)].
  - reflexivity.
  - reflexivity.
  - split; [exact H1 | split; [exact H2 | exact H3]].
Defined.

(** * Further properties of the canvas and of the application *)

Lemma updateBounds_viewBounds (st : GPCanvas.State) :
  GPCanvas.bounds (GPCanvas.updateBounds st)
  = viewBounds (GPCanvas.zoomLevel st) (GPCanvas.panOffset st).
Proof. reflexivity. Qed.

Lemma updateBounds_inSync (st : GPCanvas.State) :
  inSync (GPCanvas.updateBounds st).
Proof. reflexivity. Qed.

Lemma step_inSync (st : GPCanvas.State) (e : GPCanvas.Event) :
  inSync st -> inSync (GPCanvas.step st e).
Proof.
  intros H.
  destruct e; cbn [GPCanvas.step]; try exact H.
  - unfold GPCanvas.handleClick. now destruct (GPCanvas.hasDragged st).
  - unfold GPCanvas.handleWheel.
    destruct (Req_dec_T _ _); [exact H | apply updateBounds_inSync].
  - unfold GPCanvas.handleMouseDown. now destruct (Nat.eqb detail 2).
  - unfold GPCanvas.handleMouseMove.
    destruct (GPCanvas.isDragging st); [apply updateBounds_inSync | exact H].
  - apply updateBounds_inSync.
  - destruct touches as [|t0 [|t1 [|t2 ts]]]; exact H.
  - destruct touches as [|t0 [|t1 [|t2 ts]]]; try exact H.
    + cbn [GPCanvas.handleTouchMove].
      destruct (GPCanvas.isDragging st); [apply updateBounds_inSync | exact H].
    + unfold GPCanvas.handleTouchMove, GPCanvas.pinch.
      destruct (Rlt_dec _ _); [|exact H].
      destruct (Req_dec_T _ _); [exact H | apply updateBounds_inSync].
Qed.

Lemma init_inSync : inSync GPCanvas.init.
Proof.
  unfold inSync, viewBounds, GPCanvas.updateBounds, GPCanvas.init,
    GPCanvas.defaultBounds.
  simpl. f_equal; lra.
Qed.

Lemma run_inSync_zoom (evs : list GPCanvas.Event) :
  inSync (GPCanvas.run evs) /\ zoomInRange (GPCanvas.run evs).
Proof.
  unfold GPCanvas.run.
  assert (Hinit : inSync GPCanvas.init /\ zoomInRange GPCanvas.init).
  { split; [apply init_inSync|].
    unfold zoomInRange, GPCanvas.MIN_ZOOM, GPCanvas.MAX_ZOOM,
      GPCanvas.MAX_SCALE_FACTOR. simpl. lra. }
  revert Hinit. generalize GPCanvas.init.
  induction evs as [|e evs IH]; intros st [Hs Hz]; simpl.
  - now split.
  - apply IH. split; [now apply step_inSync | now apply step_zoomInRange].
Qed.

Lemma viewBounds_size (z : R) (pan : GPCanvas.Pos) :
  0 < z ->
  let b := viewBounds z pan in
  xMax b - xMin b = 6 / z
  /\ yMax b - yMin b = 4 / z
  /\ (xMin b + xMax b) / 2 = GPCanvas.posX pan
  /\ (yMin b + yMax b) / 2 = GPCanvas.posY pan.
Proof.
  intros Hz. unfold viewBounds, GPCanvas.updateBounds. simpl.
  repeat split; field; lra.
Qed.

Lemma step_size (st : GPCanvas.State) (e : GPCanvas.Event) :
  (GPCanvas.width (GPCanvas.step st e), GPCanvas.height (GPCanvas.step st e))
  = match e with
    | GPCanvas.Resize w h => (w, h)
    | _ => (GPCanvas.width st, GPCanvas.height st)
    end.
Proof.
  destruct e; cbn [GPCanvas.step]; try reflexivity.
  - unfold GPCanvas.handleClick. now destruct (GPCanvas.hasDragged st).
  - unfold GPCanvas.handleWheel. now destruct (Req_dec_T _ _).
  - unfold GPCanvas.handleMouseDown. now destruct (Nat.eqb detail 2).
  - unfold GPCanvas.handleMouseMove.
    destruct (GPCanvas.isDragging st); [|reflexivity].
    destruct (Rlt_dec _ _); [|destruct (Rlt_dec _ _)]; reflexivity.
  - destruct touches as [|t0 [|t1 [|t2 ts]]]; reflexivity.
  - destruct touches as [|t0 [|t1 [|t2 ts]]]; try reflexivity.
    + cbn [GPCanvas.handleTouchMove].
      now destruct (GPCanvas.isDragging st).
    + unfold GPCanvas.handleTouchMove, GPCanvas.pinch.
      destruct (Rlt_dec _ _); [|reflexivity].
      now destruct (Req_dec_T _ _).
Qed.

(** On a sized run the canvas has a positive width and height from the
    first event on: the divisions by [width] and [height] in [toDataX],
    [toDataY] and the pans are divisions by positive numbers. *)
Lemma sizedRun_positive_size (evs : list GPCanvas.Event) :
  sizedRun evs -> evs <> [] ->
  0 < GPCanvas.width (GPCanvas.run evs)
  /\ 0 < GPCanvas.height (GPCanvas.run evs).
Proof.
  destruct evs as [|e evs]; [intros _ H; contradiction|].
  intros [(w & h & ->) Hall] _.
  inversion Hall as [|e' l Hpos Hrest]; subst.
  destruct Hpos as [Hw Hh]. clear Hall.
  unfold GPCanvas.run. cbn [fold_left GPCanvas.step].
  assert (Hs : 0 < GPCanvas.width (GPCanvas.setupCanvas w h GPCanvas.init)
               /\ 0 < GPCanvas.height
                        (GPCanvas.setupCanvas w h GPCanvas.init))
    by (simpl; split; assumption).
  revert Hs. generalize (GPCanvas.setupCanvas w h GPCanvas.init).
  induction Hrest as [|e evs He _ IH]; intros st Hs; [exact Hs|].
  cbn [fold_left]. apply IH.
  pose proof (step_size st e) as E.
  pose proof (f_equal fst E) as Ew. pose proof (f_equal snd E) as Eh.
  cbn [fst snd] in Ew, Eh. rewrite Ew, Eh.
  destruct e; try exact Hs. exact He.
Qed.

(** X1. In every state the sized canvas reaches, the bounds are the ones
    the zoom level and the pan offset determine: the visible range is
    6 / zoomLevel wide and 4 / zoomLevel high, and centred on the pan
    offset. *)
Theorem visible_range_follows_zoom_and_pan (evs : list GPCanvas.Event) :
  sizedRun evs ->
  let st := GPCanvas.run evs in
  let b := GPCanvas.bounds st in
  xMax b - xMin b = 6 / GPCanvas.zoomLevel st
  /\ yMax b - yMin b = 4 / GPCanvas.zoomLevel st
  /\ (xMin b + xMax b) / 2 = GPCanvas.posX (GPCanvas.panOffset st)
  /\ (yMin b + yMax b) / 2 = GPCanvas.posY (GPCanvas.panOffset st).
Proof.
  intros _. cbv zeta. destruct (run_inSync_zoom evs) as [Hs Hz].
  rewrite Hs. apply viewBounds_size.
  unfold zoomInRange, GPCanvas.MIN_ZOOM, GPCanvas.MAX_SCALE_FACTOR in Hz. lra.
Qed.

Lemma visible_range_follows_zoom_and_pan_witness :
  let st := GPCanvas.run
              [GPCanvas.Resize 800 500; GPCanvas.Wheel 600 250 (-1) 0 0] in
  xMax (GPCanvas.bounds st) - xMin (GPCanvas.bounds st)
  = 6 / GPCanvas.zoomLevel st.
Proof.
  intros st.
  destruct (visible_range_follows_zoom_and_pan
              [GPCanvas.Resize 800 500; GPCanvas.Wheel 600 250 (-1) 0 0])
    as (H & _).
  - split; [now exists 800, 500|].
    repeat constructor; lra.
  - exact H.
Defined.

Lemma zoomInRange_inv (st : GPCanvas.State) :
  zoomInRange st ->
  0 < GPCanvas.zoomLevel st
  /\ / 3 <= / GPCanvas.zoomLevel st <= 4.
Proof.
  unfold zoomInRange, GPCanvas.MIN_ZOOM, GPCanvas.MAX_ZOOM,
    GPCanvas.MAX_SCALE_FACTOR.
  intros [Hlo Hhi].
  assert (Hz : 0 < GPCanvas.zoomLevel st) by lra.
  split; [exact Hz|]. split.
  - apply Rinv_le_contravar; lra.
  - replace 4 with (/ (1 / 4)) by field.
    apply Rinv_le_contravar; lra.
Qed.


Lemma clampPanOffset_eq (st : GPCanvas.State) (off : GPCanvas.Pos) :
  zoomInRange st ->
  GPCanvas.clampPanOffset st off
  = GPCanvas.mkPos
      (Rmax (- maxPanX (GPCanvas.zoomLevel st))
         (Rmin (maxPanX (GPCanvas.zoomLevel st)) (GPCanvas.posX off)))
      (Rmax (- maxPanY (GPCanvas.zoomLevel st))
         (Rmin (maxPanY (GPCanvas.zoomLevel st)) (GPCanvas.posY off))).
Proof.
  intros Hz. destruct (zoomInRange_inv st Hz) as (Hpos & Hlo & Hhi).
  unfold GPCanvas.clampPanOffset, maxPanX, maxPanY,
    GPCanvas.MAX_SCALE_FACTOR. simpl. unfold Rdiv in *.
  set (t := / GPCanvas.zoomLevel st) in *.
  rewrite (Rmax_right 0 (((3 - -3) * 4 - (3 - -3) * t) * / 2)) by lra.
  rewrite (Rmax_right 0 (((2 - -2) * 4 - (2 - -2) * t) * / 2)) by lra.
  replace (((3 - -3) * 4 - (3 - -3) * t) * / 2) with (12 - 3 * t) by lra.
  replace (((2 - -2) * 4 - (2 - -2) * t) * / 2) with (8 - 2 * t) by lra.
  reflexivity.
Qed.

Lemma clamp_range (m x : R) :
  0 <= m -> - m <= Rmax (- m) (Rmin m x) <= m.
Proof.
  intros Hm. unfold Rmax, Rmin.
  destruct (Rle_dec m x); destruct (Rle_dec _ _); lra.
Qed.

Lemma clamp_id (m x : R) :
  - m <= x <= m -> Rmax (- m) (Rmin m x) = x.
Proof.
  intros Hx. unfold Rmax, Rmin.
  destruct (Rle_dec m x); destruct (Rle_dec _ _); lra.
Qed.

Lemma Rabs_le_bounds (a b : R) : Rabs a <= b -> - b <= a <= b.
Proof.
  intros H. pose proof (Rle_abs a). pose proof (Rle_abs (- a)).
  rewrite Rabs_Ropp in *. lra.
Qed.

(** X2. With the zoom level within its limits, [clampPanOffset] returns an
    offset of absolute value at most 12 - 3 / zoom in x and 8 - 2 / zoom in
    y, clamping again changes nothing, and an offset already within these
    limits is returned as it is. *)
Theorem clampPanOffset_limits (st : GPCanvas.State) (off : GPCanvas.Pos) :
  zoomInRange st ->
  let z := GPCanvas.zoomLevel st in
  let c := GPCanvas.clampPanOffset st off in
  (Rabs (GPCanvas.posX c) <= 12 - 3 / z
   /\ Rabs (GPCanvas.posY c) <= 8 - 2 / z)
  /\ GPCanvas.clampPanOffset st c = c
  /\ (Rabs (GPCanvas.posX off) <= 12 - 3 / z ->
      Rabs (GPCanvas.posY off) <= 8 - 2 / z ->
      c = off).
Proof.
  intros Hz z c. destruct (zoomInRange_inv st Hz) as (Hpos & Hlo & Hhi).
  assert (Hmx : 0 <= maxPanX z) by (unfold maxPanX, Rdiv; fold z in Hhi; lra).
  assert (Hmy : 0 <= maxPanY z) by (unfold maxPanY, Rdiv; fold z in Hhi; lra).
  assert (Hc : - maxPanX z <= GPCanvas.posX c <= maxPanX z
               /\ - maxPanY z <= GPCanvas.posY c <= maxPanY z).
  { unfold c. rewrite clampPanOffset_eq by exact Hz. fold z. simpl.
    split; now apply clamp_range. }
  destruct Hc as [Hcx Hcy].
  split; [|split].
  - split; apply Rabs_le; assumption.
  - rewrite clampPanOffset_eq by exact Hz. fold z.
    rewrite !clamp_id by assumption. now destruct c.
  - intros Hx Hy. unfold c. rewrite clampPanOffset_eq by exact Hz. fold z.
    apply Rabs_le_bounds in Hx. apply Rabs_le_bounds in Hy.
    rewrite !clamp_id by assumption. now destruct off.
Qed.

Lemma clampPanOffset_limits_witness :
  GPCanvas.clampPanOffset GPCanvas.init (GPCanvas.mkPos 20 1)
  = GPCanvas.clampPanOffset GPCanvas.init
      (GPCanvas.clampPanOffset GPCanvas.init (GPCanvas.mkPos 20 1)).
Proof.
  destruct (clampPanOffset_limits GPCanvas.init (GPCanvas.mkPos 20 1))
    as (_ & H & _).
  - unfold zoomInRange, GPCanvas.MIN_ZOOM, GPCanvas.MAX_ZOOM,
      GPCanvas.MAX_SCALE_FACTOR. simpl. lra.
  - symmetry. exact H.
Defined.

Lemma clamped_view_inWorld (st : GPCanvas.State) (off : GPCanvas.Pos) :
  zoomInRange st ->
  inWorld (viewBounds (GPCanvas.zoomLevel st) (GPCanvas.clampPanOffset st off)).
Proof.
  intros Hz. destruct (zoomInRange_inv st Hz) as (Hpos & Hlo & Hhi).
  rewrite clampPanOffset_eq by exact Hz.
  assert (Hmx : 0 <= maxPanX (GPCanvas.zoomLevel st))
    by (unfold maxPanX, Rdiv; lra).
  assert (Hmy : 0 <= maxPanY (GPCanvas.zoomLevel st))
    by (unfold maxPanY, Rdiv; lra).
  pose proof (clamp_range _ (GPCanvas.posX off) Hmx) as Hx.
  pose proof (clamp_range _ (GPCanvas.posY off) Hmy) as Hy.
  revert Hx Hy.
  generalize (Rmax (- maxPanX (GPCanvas.zoomLevel st))
                (Rmin (maxPanX (GPCanvas.zoomLevel st)) (GPCanvas.posX off))).
  generalize (Rmax (- maxPanY (GPCanvas.zoomLevel st))
                (Rmin (maxPanY (GPCanvas.zoomLevel st)) (GPCanvas.posY off))).
  intros cy cx Hx Hy.
  unfold inWorld, viewBounds, GPCanvas.updateBounds, maxPanX, maxPanY in *.
  simpl. unfold Rdiv in *. rewrite Rinv_mult.
  set (t := / GPCanvas.zoomLevel st) in *.
  repeat split; lra.
Qed.

Lemma step_inWorld (st : GPCanvas.State) (e : GPCanvas.Event) :
  isPinch e = false ->
  zoomInRange st ->
  inWorld (GPCanvas.bounds st) ->
  inWorld (GPCanvas.bounds (GPCanvas.step st e)).
Proof.
  intros Hp Hz H.
  destruct e; cbn [GPCanvas.step]; try exact H.
  - unfold GPCanvas.handleClick. now destruct (GPCanvas.hasDragged st).
  - unfold GPCanvas.handleWheel.
    destruct (Req_dec_T _ _); [exact H|].
    rewrite updateBounds_viewBounds.
    match goal with
    | |- context [GPCanvas.clampPanOffset ?s ?o] =>
        apply (clamped_view_inWorld s o)
    end.
    unfold zoomInRange. simpl. apply clampZoom_range.
  - unfold GPCanvas.handleMouseDown. now destruct (Nat.eqb detail 2).
  - unfold GPCanvas.handleMouseMove.
    destruct (GPCanvas.isDragging st); [|exact H].
    rewrite updateBounds_viewBounds.
    destruct (Rlt_dec _ _); [|destruct (Rlt_dec _ _)];
      apply (clamped_view_inWorld st); exact Hz.
  - unfold inWorld, GPCanvas.handleDoubleClick, GPCanvas.updateBounds.
    simpl. lra.
  - destruct touches as [|t0 [|t1 [|t2 ts]]]; exact H.
  - destruct touches as [|t0 [|t1 [|t2 ts]]]; try exact H.
    + cbn [GPCanvas.handleTouchMove].
      destruct (GPCanvas.isDragging st); [|exact H].
      rewrite updateBounds_viewBounds.
      apply (clamped_view_inWorld st). exact Hz.
    + discriminate.
Qed.

(** X3. On a sized canvas, as long as no two-finger touch move (pinch)
    occurs, the visible range stays inside the world
    [[-12, 12] x [-8, 8]], four times the default view, whatever the click,
    wheel, mouse and one-finger touch events are. *)
Theorem view_stays_in_world_without_pinch (evs : list GPCanvas.Event) :
  sizedRun evs ->
  Forall (fun e => isPinch e = false) evs ->
  inWorld (GPCanvas.bounds (GPCanvas.run evs)).
Proof.
  intros _ Hevs. unfold GPCanvas.run.
  assert (Hinit : zoomInRange GPCanvas.init
                  /\ inWorld (GPCanvas.bounds GPCanvas.init)).
  { unfold zoomInRange, inWorld, GPCanvas.MIN_ZOOM, GPCanvas.MAX_ZOOM,
      GPCanvas.MAX_SCALE_FACTOR. simpl. lra. }
  revert Hinit. generalize GPCanvas.init.
  induction Hevs as [|e evs He _ IH]; intros st [Hz Hw]; simpl.
  - exact Hw.
  - apply IH. split.
    + now apply step_zoomInRange.
    + now apply step_inWorld.
Qed.

Lemma view_stays_in_world_without_pinch_witness :
  inWorld
    (GPCanvas.bounds
       (GPCanvas.run
          [GPCanvas.Resize 800 500;
           GPCanvas.Wheel 10 10 (-1) 0 0;
           GPCanvas.MouseDown 1 10 10;
           GPCanvas.MouseMove 400 10;
           GPCanvas.MouseUp])).
Proof.
  apply view_stays_in_world_without_pinch.
  - split; [now exists 800, 500|].
    repeat constructor; lra.
  - repeat constructor.
Defined.

Lemma clampZoom_id (z : R) :
  GPCanvas.MIN_ZOOM <= z <= GPCanvas.MAX_ZOOM -> GPCanvas.clampZoom z = z.
Proof.
  unfold GPCanvas.clampZoom, GPCanvas.MIN_ZOOM, GPCanvas.MAX_ZOOM,
    GPCanvas.MAX_SCALE_FACTOR, Rmax, Rmin.
  intros H. destruct (Rle_dec 3 z); destruct (Rle_dec _ _); lra.
Qed.

Lemma clampZoom_above (z : R) :
  GPCanvas.MAX_ZOOM <= z -> GPCanvas.clampZoom z = GPCanvas.MAX_ZOOM.
Proof.
  unfold GPCanvas.clampZoom, GPCanvas.MIN_ZOOM, GPCanvas.MAX_ZOOM,
    GPCanvas.MAX_SCALE_FACTOR, Rmax, Rmin.
  intros H. destruct (Rle_dec 3 z); destruct (Rle_dec _ _); lra.
Qed.

Lemma clampZoom_below (z : R) :
  z <= GPCanvas.MIN_ZOOM -> GPCanvas.clampZoom z = GPCanvas.MIN_ZOOM.
Proof.
  unfold GPCanvas.clampZoom, GPCanvas.MIN_ZOOM, GPCanvas.MAX_ZOOM,
    GPCanvas.MAX_SCALE_FACTOR, Rmax, Rmin.
  intros H. destruct (Rle_dec 3 z); destruct (Rle_dec _ _); lra.
Qed.

(** X5. At the zoom limits a further zoom in the same direction changes
    nothing at all: at the maximum zoom a wheel event with [deltaY <= 0]
    and a pinch that does not shrink return the state unchanged, and so do
    a wheel event with [deltaY > 0] and a pinch that does not grow at the
    minimum zoom. *)
Theorem zoom_limits_are_sticky (st : GPCanvas.State)
  (clientX clientY deltaY rectLeft rectTop : R) (t0 t1 : GPCanvas.Pos) :
  (GPCanvas.zoomLevel st = GPCanvas.MAX_ZOOM ->
   (deltaY <= 0 ->
    GPCanvas.handleWheel clientX clientY deltaY rectLeft rectTop st = st)
   /\ (GPCanvas.initialTouchDistance st <= GPCanvas.touchDistance t0 t1 ->
       GPCanvas.handleTouchMove [t0; t1] st = st))
  /\ (GPCanvas.zoomLevel st = GPCanvas.MIN_ZOOM ->
      (0 < deltaY ->
       GPCanvas.handleWheel clientX clientY deltaY rectLeft rectTop st = st)
      /\ (GPCanvas.touchDistance t0 t1 <= GPCanvas.initialTouchDistance st ->
          GPCanvas.handleTouchMove [t0; t1] st = st)).
Proof.
  split; intros Hz; split; intros Hd.
  - unfold GPCanvas.handleWheel.
    destruct (Rlt_dec 0 deltaY); [lra|].
    rewrite Hz, clampZoom_above by (unfold GPCanvas.MAX_ZOOM; lra).
    now destruct (Req_dec_T _ _).
  - unfold GPCanvas.handleTouchMove, GPCanvas.pinch.
    destruct (Rlt_dec _ _) as [Hp|]; [|reflexivity].
    rewrite Hz, clampZoom_above.
    + now destruct (Req_dec_T _ _).
    + unfold GPCanvas.MAX_ZOOM.
      assert (1 <= GPCanvas.touchDistance t0 t1
                   / GPCanvas.initialTouchDistance st).
      { apply Rmult_le_reg_r with (GPCanvas.initialTouchDistance st);
          [exact Hp|].
        unfold Rdiv. rewrite Rmult_assoc, Rinv_l by lra. lra. }
      nra.
  - unfold GPCanvas.handleWheel.
    destruct (Rlt_dec 0 deltaY); [|lra].
    rewrite Hz, clampZoom_below
      by (unfold GPCanvas.MIN_ZOOM, GPCanvas.MAX_SCALE_FACTOR; lra).
    now destruct (Req_dec_T _ _).
  - unfold GPCanvas.handleTouchMove, GPCanvas.pinch.
    destruct (Rlt_dec _ _) as [Hp|]; [|reflexivity].
    rewrite Hz, clampZoom_below.
    + now destruct (Req_dec_T _ _).
    + unfold GPCanvas.MIN_ZOOM, GPCanvas.MAX_SCALE_FACTOR.
      assert (GPCanvas.touchDistance t0 t1
              / GPCanvas.initialTouchDistance st <= 1).
      { apply Rmult_le_reg_r with (GPCanvas.initialTouchDistance st);
          [exact Hp|].
        unfold Rdiv. rewrite Rmult_assoc, Rinv_l by lra. lra. }
      assert (0 <= GPCanvas.touchDistance t0 t1
                   / GPCanvas.initialTouchDistance st).
      { apply Rmult_le_reg_r with (GPCanvas.initialTouchDistance st);
          [exact Hp|].
        unfold Rdiv. rewrite Rmult_assoc, Rinv_l by lra.
        unfold GPCanvas.touchDistance.
        pose proof (sqrt_pos
          ((GPCanvas.posX t0 - GPCanvas.posX t1)
           * (GPCanvas.posX t0 - GPCanvas.posX t1)
           + (GPCanvas.posY t0 - GPCanvas.posY t1)
             * (GPCanvas.posY t0 - GPCanvas.posY t1))).
        lra. }
      nra.
Qed.

Lemma zoom_limits_are_sticky_witness :
  let st := GPCanvas.setZoomLevel 3 GPCanvas.init in
  GPCanvas.handleWheel 10 10 (-1) 0 0 st = st.
Proof.
  intros st.
  destruct (zoom_limits_are_sticky st 10 10 (-1) 0 0
              (GPCanvas.mkPos 0 0) (GPCanvas.mkPos 0 0)) as [H _].
  apply H.
  - reflexivity.
  - lra.
Defined.

Lemma handleMouseMove_dragging (st : GPCanvas.State) (ox oy : R) :
  GPCanvas.isDragging st = true ->
  let st' := GPCanvas.handleMouseMove ox oy st in
  let dx := ox - GPCanvas.posX (GPCanvas.lastMousePos st) in
  let dy := oy - GPCanvas.posY (GPCanvas.lastMousePos st) in
  GPCanvas.bounds st'
  = viewBounds (GPCanvas.zoomLevel st)
      (GPCanvas.clampPanOffset st (GPCanvas.panBy dx dy st))
  /\ GPCanvas.width st' = GPCanvas.width st
  /\ GPCanvas.height st' = GPCanvas.height st
  /\ GPCanvas.lastMousePos st' = GPCanvas.mkPos ox oy.
Proof.
  intros Hd. cbv zeta. unfold GPCanvas.handleMouseMove. rewrite Hd.
  destruct (Rlt_dec _ _); [|destruct (Rlt_dec _ _)]; repeat split.
Qed.

(** X6. While dragging on a canvas of positive size, as long as the pan
    offset is not clamped, the data point that was under the pointer at the
    previous mouse position is under the pointer at the new position. *)
Theorem drag_keeps_grabbed_point (st : GPCanvas.State) (ox oy : R) :
  GPCanvas.isDragging st = true ->
  0 < GPCanvas.width st ->
  0 < GPCanvas.height st ->
  0 < GPCanvas.zoomLevel st ->
  inSync st ->
  let dx := ox - GPCanvas.posX (GPCanvas.lastMousePos st) in
  let dy := oy - GPCanvas.posY (GPCanvas.lastMousePos st) in
  GPCanvas.clampPanOffset st (GPCanvas.panBy dx dy st)
  = GPCanvas.panBy dx dy st ->
  let st' := GPCanvas.handleMouseMove ox oy st in
  GPCanvas.toDataX st' ox
  = GPCanvas.toDataX st (GPCanvas.posX (GPCanvas.lastMousePos st))
  /\ GPCanvas.toDataY st' oy
     = GPCanvas.toDataY st (GPCanvas.posY (GPCanvas.lastMousePos st)).
Proof.
  intros Hd Hw Hh Hz Hs dx dy Hc st'.
  destruct (handleMouseMove_dragging st ox oy Hd) as (Hb & Hw' & Hh' & _).
  fold st' dx dy in Hb, Hw', Hh'. rewrite Hc in Hb.
  unfold GPCanvas.toDataX, GPCanvas.toDataY.
  rewrite Hb, Hw', Hh', Hs.
  unfold dx, dy, GPCanvas.panBy. rewrite Hs.
  unfold viewBounds, GPCanvas.updateBounds. simpl.
  split; field; lra.
Qed.

Lemma drag_keeps_grabbed_point_witness :
  let st := GPCanvas.handleMouseDown 1 100 100
              (GPCanvas.setupCanvas 800 500 GPCanvas.init) in
  GPCanvas.toDataX (GPCanvas.handleMouseMove 110 100 st) 110
  = GPCanvas.toDataX st 100.
Proof.
  intros st.
  assert (Hz : zoomInRange st).
  { unfold zoomInRange, GPCanvas.MIN_ZOOM, GPCanvas.MAX_ZOOM,
      GPCanvas.MAX_SCALE_FACTOR. simpl. lra. }
  destruct (drag_keeps_grabbed_point st 110 100) as [H _].
  - reflexivity.
  - simpl. lra.
  - simpl. lra.
  - simpl. lra.
  - apply init_inSync.
  - rewrite clampPanOffset_eq by exact Hz.
    unfold GPCanvas.panBy, maxPanX, maxPanY. simpl.
    rewrite !clamp_id by lra. reflexivity.
  - exact H.
Defined.

(** X7. A wheel zoom that neither the zoom limits nor the pan limits
    clamp multiplies the zoom level by the zoom factor and moves the data
    point under the pointer by (worldX - centerX) * (1 / zoomFactor -
    zoomFactor), and likewise in y: the point under the pointer stays where
    it is exactly when the pointer is at the centre of the view.  The
    centre of the view is the pan offset, the default bounds being centred
    at 0. *)
Theorem wheel_zoom_anchor (st : GPCanvas.State)
  (clientX clientY deltaY rectLeft rectTop : R) :
  0 < GPCanvas.width st ->
  0 < GPCanvas.height st ->
  zoomInRange st ->
  inSync st ->
  let zoomFactor := if Rlt_dec 0 deltaY then 9 / 10 else 11 / 10 in
  let mouseX := clientX - rectLeft in
  let mouseY := clientY - rectTop in
  let worldX := GPCanvas.toDataX st mouseX in
  let worldY := GPCanvas.toDataY st mouseY in
  let centerX := GPCanvas.posX (GPCanvas.panOffset st) in
  let centerY := GPCanvas.posY (GPCanvas.panOffset st) in
  let newZoom := GPCanvas.zoomLevel st * zoomFactor in
  let pan := GPCanvas.mkPos (centerX + (worldX - centerX) * (1 - zoomFactor))
               (centerY + (worldY - centerY) * (1 - zoomFactor)) in
  GPCanvas.MIN_ZOOM <= newZoom <= GPCanvas.MAX_ZOOM ->
  GPCanvas.clampPanOffset (GPCanvas.setZoomLevel newZoom st) pan = pan ->
  let st' :=
    GPCanvas.handleWheel clientX clientY deltaY rectLeft rectTop st in
  GPCanvas.zoomLevel st' = newZoom
  /\ GPCanvas.toDataX st' mouseX - worldX
     = (worldX - centerX) * (1 / zoomFactor - zoomFactor)
  /\ GPCanvas.toDataY st' mouseY - worldY
     = (worldY - centerY) * (1 / zoomFactor - zoomFactor)
  /\ (GPCanvas.toDataX st' mouseX = worldX <-> worldX = centerX)
  /\ (GPCanvas.toDataY st' mouseY = worldY <-> worldY = centerY).
Proof.
  intros Hw Hh Hz Hs zoomFactor mouseX mouseY worldX worldY centerX centerY
    newZoom pan Hn Hc st'.
  destruct (zoomInRange_inv st Hz) as (Hpos & _).
  assert (Hf : zoomFactor = 9 / 10 \/ zoomFactor = 11 / 10)
    by (unfold zoomFactor; destruct (Rlt_dec 0 deltaY); auto).
  assert (Hne : newZoom <> GPCanvas.zoomLevel st)
    by (unfold newZoom; destruct Hf as [-> | ->]; nra).
  assert (Hnpos : 0 < newZoom)
    by (unfold newZoom; destruct Hf as [-> | ->]; nra).
  assert (Hst' : GPCanvas.bounds st' = viewBounds newZoom pan
                 /\ GPCanvas.width st' = GPCanvas.width st
                 /\ GPCanvas.height st' = GPCanvas.height st
                 /\ GPCanvas.zoomLevel st' = newZoom).
  { unfold st', GPCanvas.handleWheel.
    fold zoomFactor mouseX mouseY worldX worldY newZoom.
    rewrite (clampZoom_id newZoom Hn).
    destruct (Req_dec_T newZoom (GPCanvas.zoomLevel st)); [contradiction|].
    rewrite updateBounds_viewBounds. cbn -[viewBounds GPCanvas.clampPanOffset].
    replace (GPCanvas.mkPos _ _) with pan.
    - rewrite Hc. repeat split.
    - unfold pan, centerX, centerY. f_equal; lra. }
  destruct Hst' as (Hb & Hw' & Hh' & Hz').
  assert (Hdx : GPCanvas.toDataX st' mouseX - worldX
                = (worldX - centerX) * (1 / zoomFactor - zoomFactor)).
  { unfold GPCanvas.toDataX at 1. rewrite Hb, Hw'.
    unfold pan, worldX, worldY, GPCanvas.toDataX, GPCanvas.toDataY.
    rewrite Hs. unfold newZoom, viewBounds, GPCanvas.updateBounds. simpl.
    fold centerX centerY. destruct Hf as [-> | ->]; field; lra. }
  assert (Hdy : GPCanvas.toDataY st' mouseY - worldY
                = (worldY - centerY) * (1 / zoomFactor - zoomFactor)).
  { unfold GPCanvas.toDataY at 1. rewrite Hb, Hh'.
    unfold pan, worldX, worldY, GPCanvas.toDataX, GPCanvas.toDataY.
    rewrite Hs. unfold newZoom, viewBounds, GPCanvas.updateBounds. simpl.
    fold centerX centerY. destruct Hf as [-> | ->]; field; lra. }
  split; [exact Hz'|]. split; [exact Hdx|]. split; [exact Hdy|].
  assert (Hk : 1 / zoomFactor - zoomFactor <> 0).
  { destruct Hf as [-> | ->]; lra. }
  split; split; intros E; nra.
Qed.

Lemma wheel_zoom_anchor_witness :
  let st := GPCanvas.setupCanvas 800 500 GPCanvas.init in
  let st' := GPCanvas.handleWheel 600 250 (-1) 0 0 st in
  GPCanvas.toDataX st' (600 - 0) <> GPCanvas.toDataX st (600 - 0).
Proof.
  intros st st'.
  assert (Hz : zoomInRange st).
  { unfold zoomInRange, GPCanvas.MIN_ZOOM, GPCanvas.MAX_ZOOM,
      GPCanvas.MAX_SCALE_FACTOR. simpl. lra. }
  assert (E : (if Rlt_dec 0 (-1) then 9 / 10 else 11 / 10) = 11 / 10)
    by (destruct (Rlt_dec 0 (-1)); lra).
  pose proof (wheel_zoom_anchor st 600 250 (-1) 0 0) as H.
  cbv zeta in H. rewrite E in H.
  destruct H as (_ & _ & _ & Hx & _).
  - simpl. lra.
  - simpl. lra.
  - exact Hz.
  - apply init_inSync.
  - unfold GPCanvas.MIN_ZOOM, GPCanvas.MAX_ZOOM, GPCanvas.MAX_SCALE_FACTOR.
    simpl. lra.
  - rewrite clampPanOffset_eq.
    + unfold maxPanX, maxPanY, GPCanvas.toDataX, GPCanvas.toDataY. simpl.
      rewrite !clamp_id; [reflexivity | lra | lra].
    + unfold zoomInRange, GPCanvas.MIN_ZOOM, GPCanvas.MAX_ZOOM,
        GPCanvas.MAX_SCALE_FACTOR. simpl. lra.
  - intros Heq. apply Hx in Heq.
    unfold GPCanvas.toDataX in Heq. simpl in Heq. lra.
Defined.

Lemma touchDistance_horizontal (a b : R) :
  b <= a ->
  GPCanvas.touchDistance (GPCanvas.mkPos a 0) (GPCanvas.mkPos b 0) = a - b.
Proof.
  intros H. unfold GPCanvas.touchDistance. simpl.
  replace ((a - b) * (a - b) + (0 - 0) * (0 - 0)) with ((a - b) * (a - b))
    by lra.
  apply sqrt_square. lra.
Qed.

(** X4. The pinch branch of [handleTouchMove] changes the zoom level
    without clamping the pan offset again: there is an event sequence, a
    one-finger pan followed by a pinch out, after which the visible range
    is no longer inside the world. *)
Theorem pinch_can_leave_world :
  exists evs : list GPCanvas.Event,
    ~ inWorld (GPCanvas.bounds (GPCanvas.run evs)).
Proof.
  exists [GPCanvas.Resize 6 4;
          GPCanvas.TouchStart [GPCanvas.mkPos 0 0];
          GPCanvas.TouchMove [GPCanvas.mkPos (-9) 0];
          GPCanvas.TouchStart [GPCanvas.mkPos 4 0; GPCanvas.mkPos 0 0];
          GPCanvas.TouchMove [GPCanvas.mkPos 1 0; GPCanvas.mkPos 0 0]].
  unfold GPCanvas.run.
  cbn [fold_left GPCanvas.step GPCanvas.setupCanvas GPCanvas.handleTouchStart].
  set (s2 := GPCanvas.setLastMousePos _ _).
  assert (Hz2 : zoomInRange s2).
  { unfold zoomInRange, GPCanvas.MIN_ZOOM, GPCanvas.MAX_ZOOM,
      GPCanvas.MAX_SCALE_FACTOR. simpl. lra. }
  assert (Hp : GPCanvas.clampPanOffset s2
                 (GPCanvas.panBy (-9 - 0) (0 - 0) s2)
               = GPCanvas.mkPos 9 0).
  { rewrite clampPanOffset_eq by exact Hz2.
    unfold GPCanvas.panBy, maxPanX, maxPanY. simpl.
    rewrite !clamp_id by lra. f_equal; lra. }
  cbn [GPCanvas.handleTouchMove].
  change (GPCanvas.isDragging s2) with true. cbv iota.
  change (GPCanvas.posX (GPCanvas.lastMousePos s2)) with 0.
  change (GPCanvas.posY (GPCanvas.lastMousePos s2)) with 0.
  cbn [GPCanvas.posX GPCanvas.posY].
  rewrite Hp.
  set (s3 := GPCanvas.updateBounds _).
  unfold GPCanvas.pinch.
  cbn [GPCanvas.initialTouchDistance GPCanvas.setInitialTouchDistance
       GPCanvas.zoomLevel].
  rewrite !touchDistance_horizontal by lra.
  destruct (Rlt_dec 0 (4 - 0)); [|lra].
  replace (GPCanvas.zoomLevel s3 * ((1 - 0) / (4 - 0))) with (1 / 4)
    by (simpl; field).
  rewrite clampZoom_id
    by (unfold GPCanvas.MIN_ZOOM, GPCanvas.MAX_ZOOM,
          GPCanvas.MAX_SCALE_FACTOR; lra).
  destruct (Req_dec_T (1 / 4) (GPCanvas.zoomLevel s3)) as [E|_];
    [simpl in E; lra|].
  unfold inWorld, GPCanvas.updateBounds. simpl.
  intros (_ & H & _). lra.
Qed.

Lemma ratio_in_unit (a w : R) : 0 < w -> 0 <= a <= w -> 0 <= a / w <= 1.
Proof.
  intros Hw [H0 H1]. split.
  - apply Rmult_le_reg_r with w; [exact Hw|].
    unfold Rdiv. rewrite Rmult_assoc, Rinv_l by lra. lra.
  - apply Rmult_le_reg_r with w; [exact Hw|].
    unfold Rdiv. rewrite Rmult_assoc, Rinv_l by lra. lra.
Qed.

(** X8. A click that does not end a drag, on a canvas of positive size
    with a non-degenerate visible range, leaves the state as it is and
    emits one point; drawn, that point lands on the clicked pixel, and it
    lies within the visible bounds when the click is inside the canvas. *)
Theorem click_adds_point_under_pointer (st : GPCanvas.State)
  (offsetX offsetY : R) :
  GPCanvas.hasDragged st = false ->
  0 < GPCanvas.width st ->
  0 < GPCanvas.height st ->
  boundsWellFormed (GPCanvas.bounds st) ->
  exists pt,
    GPCanvas.handleClick offsetX offsetY st = (st, Some pt)
    /\ GPCanvas.toCanvasX st (px pt) = offsetX
    /\ GPCanvas.toCanvasY st (py pt) = offsetY
    /\ (0 <= offsetX <= GPCanvas.width st ->
        0 <= offsetY <= GPCanvas.height st ->
        inBounds (GPCanvas.bounds st) pt).
Proof.
  intros Hd Hw Hh [Hx Hy].
  unfold GPCanvas.handleClick. rewrite Hd. eexists. split; [reflexivity|].
  cbn [px py].
  split; [unfold GPCanvas.toCanvasX, GPCanvas.toDataX; field; lra|].
  split; [unfold GPCanvas.toCanvasY, GPCanvas.toDataY; field; lra|].
  intros Hox Hoy.
  pose proof (ratio_in_unit offsetX (GPCanvas.width st) Hw Hox) as Hu.
  pose proof (ratio_in_unit offsetY (GPCanvas.height st) Hh Hoy) as Hv.
  unfold inBounds, GPCanvas.toDataX, GPCanvas.toDataY. cbn [px py].
  set (u := offsetX / GPCanvas.width st) in *.
  set (v := offsetY / GPCanvas.height st) in *.
  repeat split; nra.
Qed.

Lemma click_adds_point_under_pointer_witness :
  let st := GPCanvas.setupCanvas 800 500 GPCanvas.init in
  exists pt,
    GPCanvas.handleClick 200 125 st = (st, Some pt)
    /\ GPCanvas.toCanvasX st (px pt) = 200
    /\ GPCanvas.toCanvasY st (py pt) = 125.
Proof.
  intros st.
  destruct (click_adds_point_under_pointer st 200 125)
    as (pt & H1 & H2 & H3 & _).
  - reflexivity.
  - simpl. lra.
  - simpl. lra.
  - unfold boundsWellFormed. simpl. lra.
  - exists pt. split; [exact H1 | split; [exact H2 | exact H3]].
Defined.

Lemma hasDragged_after_drag (st : GPCanvas.State) (detail : nat)
  (x0 y0 x1 y1 : R) :
  detail <> 2%nat ->
  let st3 :=
    GPCanvas.handleMouseUp
      (GPCanvas.handleMouseMove x1 y1
         (GPCanvas.handleMouseDown detail x0 y0 st)) in
  (1 < Rabs (x1 - x0) \/ 1 < Rabs (y1 - y0) ->
   GPCanvas.hasDragged st3 = true)
  /\ (Rabs (x1 - x0) <= 1 -> Rabs (y1 - y0) <= 1 ->
      GPCanvas.hasDragged st3 = false).
Proof.
  intros Hd. apply Nat.eqb_neq in Hd. cbv zeta.
  unfold GPCanvas.handleMouseDown. rewrite Hd.
  unfold GPCanvas.handleMouseMove. cbn [GPCanvas.isDragging
    GPCanvas.setLastMousePos GPCanvas.setHasDragged GPCanvas.setIsDragging
    GPCanvas.lastMousePos GPCanvas.posX GPCanvas.posY].
  split.
  - intros H.
    destruct (Rlt_dec 1 (Rabs (x1 - x0))); [reflexivity|].
    destruct (Rlt_dec 1 (Rabs (y1 - y0))); [reflexivity|].
    destruct H; contradiction.
  - intros Hx Hy.
    destruct (Rlt_dec 1 (Rabs (x1 - x0))); [lra|].
    destruct (Rlt_dec 1 (Rabs (y1 - y0))); [lra|].
    reflexivity.
Qed.

(** X9. A press, a move of more than one pixel in x or in y, and a
    release suppress exactly the next click: that click emits no point and
    the one after it does.  A move of at most one pixel in both directions
    does not suppress the click. *)
Theorem drag_suppresses_one_click (st : GPCanvas.State) (detail : nat)
  (x0 y0 x1 y1 cx cy cx' cy' : R) :
  detail <> 2%nat ->
  let st3 :=
    GPCanvas.handleMouseUp
      (GPCanvas.handleMouseMove x1 y1
         (GPCanvas.handleMouseDown detail x0 y0 st)) in
  (1 < Rabs (x1 - x0) \/ 1 < Rabs (y1 - y0) ->
   snd (GPCanvas.handleClick cx cy st3) = None
   /\ snd (GPCanvas.handleClick cx' cy'
             (fst (GPCanvas.handleClick cx cy st3))) <> None)
  /\ (Rabs (x1 - x0) <= 1 -> Rabs (y1 - y0) <= 1 ->
      snd (GPCanvas.handleClick cx cy st3) <> None).
Proof.
  intros Hd st3.
  destruct (hasDragged_after_drag st detail x0 y0 x1 y1 Hd) as [Ht Hf].
  fold st3 in Ht, Hf. split.
  - intros H. specialize (Ht H).
    unfold GPCanvas.handleClick at 1 3. rewrite Ht. cbn [fst snd].
    split; [reflexivity|].
    unfold GPCanvas.handleClick. cbn [GPCanvas.hasDragged
      GPCanvas.setHasDragged snd]. discriminate.
  - intros Hx Hy. specialize (Hf Hx Hy).
    unfold GPCanvas.handleClick. rewrite Hf. discriminate.
Qed.

Lemma drag_suppresses_one_click_witness :
  let st3 :=
    GPCanvas.handleMouseUp
      (GPCanvas.handleMouseMove 150 100
         (GPCanvas.handleMouseDown 1 100 100
            (GPCanvas.setupCanvas 800 500 GPCanvas.init))) in
  snd (GPCanvas.handleClick 150 100 st3) = None.
Proof.
  intros st3.
  destruct (drag_suppresses_one_click
              (GPCanvas.setupCanvas 800 500 GPCanvas.init) 1
              100 100 150 100 150 100 150 100) as [H _].
  - discriminate.
  - apply H. left.
    replace (150 - 100) with 50 by lra.
    rewrite Rabs_pos_eq; lra.
Defined.


(** X10. [calculateGridStep] is monotone in the range and its values lie
    between 0.05 and 1. *)
Theorem calculateGridStep_monotone (r1 r2 : R) :
  r1 <= r2 ->
  5 / 100 <= GPCanvas.calculateGridStep r1
  /\ GPCanvas.calculateGridStep r1 <= GPCanvas.calculateGridStep r2
  /\ GPCanvas.calculateGridStep r2 <= 1.
Proof.
  intros H. unfold GPCanvas.calculateGridStep.
  repeat destruct (Rlt_dec _ _); lra.
Qed.

Lemma calculateGridStep_monotone_witness :
  GPCanvas.calculateGridStep (3 / 10) <= GPCanvas.calculateGridStep 6.
Proof.
  apply (calculateGridStep_monotone (3 / 10) 6). lra.
Defined.

(** X11. In every state the sized canvas reaches, both grid steps are 0.5
    or more: the steps 0.05, 0.1 and 0.25 of [calculateGridStep] are never
    used.  Away from the thresholds, the vertical grid lines are one unit
    apart up to zoom level 2.9, and the horizontal ones are one unit apart
    up to zoom level 1.9 and half a unit apart from zoom level 2.1 on. *)
Theorem reachable_grid_steps (evs : list GPCanvas.Event) :
  sizedRun evs ->
  let st := GPCanvas.run evs in
  5 / 10 <= GPCanvas.xStep st <= 1
  /\ 5 / 10 <= GPCanvas.yStep st <= 1
  /\ (GPCanvas.zoomLevel st <= 29 / 10 -> GPCanvas.xStep st = 1)
  /\ (GPCanvas.zoomLevel st <= 19 / 10 -> GPCanvas.yStep st = 1)
  /\ (21 / 10 <= GPCanvas.zoomLevel st -> GPCanvas.yStep st = 5 / 10).
Proof.
  intros _. cbv zeta.
  destruct (run_inSync_zoom evs) as [Hs Hz].
  destruct (zoomInRange_inv _ Hz) as (Hpos & Hlo & Hhi).
  destruct (viewBounds_size (GPCanvas.zoomLevel (GPCanvas.run evs))
              (GPCanvas.panOffset (GPCanvas.run evs)) Hpos)
    as (Hx & Hy & _).
  rewrite <- Hs in Hx, Hy.
  unfold GPCanvas.xStep, GPCanvas.yStep. rewrite Hx, Hy.
  set (z := GPCanvas.zoomLevel (GPCanvas.run evs)) in *.
  change (6 / z) with (6 * / z). change (4 / z) with (4 * / z).
  set (t := / z) in *.
  unfold GPCanvas.calculateGridStep.
  split; [|split; [|split; [|split]]].
  - repeat destruct (Rlt_dec _ _); lra.
  - repeat destruct (Rlt_dec _ _); lra.
  - intros _. repeat destruct (Rlt_dec _ _); lra.
  - intros Hz2.
    assert (10 / 19 <= t).
    { replace (10 / 19) with (/ (19 / 10)) by field.
      apply Rinv_le_contravar; lra. }
    repeat destruct (Rlt_dec _ _); lra.
  - intros Hz2.
    assert (t <= 10 / 21).
    { replace (10 / 21) with (/ (21 / 10)) by field.
      apply Rinv_le_contravar; lra. }
    repeat destruct (Rlt_dec _ _); lra.
Qed.

Lemma reachable_grid_steps_witness :
  GPCanvas.yStep (GPCanvas.run [GPCanvas.Resize 800 500; GPCanvas.DblClick])
  = 1.
Proof.
  destruct (reachable_grid_steps [GPCanvas.Resize 800 500; GPCanvas.DblClick])
    as (_ & _ & _ & H & _).
  - split; [now exists 800, 500|].
    repeat constructor; lra.
  - apply H. simpl. lra.
Defined.

Lemma ceil_bounds (q : R) : q <= IZR (Math_ceil q) < q + 1.
Proof.
  unfold Math_ceil. rewrite opp_IZR.
  destruct (base_Int_part (- q)) as [H1 H2]. lra.
Qed.

Lemma floor_bounds (q : R) : q - 1 < IZR (Math_floor q) <= q.
Proof.
  unfold Math_floor.
  destruct (base_Int_part q) as [H1 H2]. lra.
Qed.

Lemma calculateGridStep_pos (r : R) : 0 < GPCanvas.calculateGridStep r.
Proof.
  unfold GPCanvas.calculateGridStep.
  repeat destruct (Rlt_dec _ _); lra.
Qed.

Lemma grid_start_bounds (lo s : R) :
  0 < s ->
  lo <= IZR (Math_ceil (lo / s)) * s < lo + s.
Proof.
  intros Hs. destruct (ceil_bounds (lo / s)) as [H1 H2].
  assert (E : lo / s * s = lo) by (field; lra).
  split; nra.
Qed.

Lemma grid_end_bounds (hi s : R) :
  0 < s ->
  hi - s < IZR (Math_floor (hi / s)) * s <= hi.
Proof.
  intros Hs. destruct (floor_bounds (hi / s)) as [H1 H2].
  assert (E : hi / s * s = hi) by (field; lra).
  split; nra.
Qed.

(** X12. The first and the last grid line of each axis lie inside the
    visible range, less than one grid step from its ends. *)
Theorem grid_lines_span_visible_range (st : GPCanvas.State) :
  let b := GPCanvas.bounds st in
  (xMin b <= GPCanvas.startX st < xMin b + GPCanvas.xStep st
   /\ xMax b - GPCanvas.xStep st < GPCanvas.endX st <= xMax b)
  /\ (yMin b <= GPCanvas.startY st < yMin b + GPCanvas.yStep st
      /\ yMax b - GPCanvas.yStep st < GPCanvas.endY st <= yMax b).
Proof.
  cbv zeta.
  unfold GPCanvas.startX, GPCanvas.endX, GPCanvas.startY, GPCanvas.endY.
  pose proof (calculateGridStep_pos
                (xMax (GPCanvas.bounds st) - xMin (GPCanvas.bounds st))).
  pose proof (calculateGridStep_pos
                (yMax (GPCanvas.bounds st) - yMin (GPCanvas.bounds st))).
  split; split.
  - now apply grid_start_bounds.
  - now apply grid_end_bounds.
  - now apply grid_start_bounds.
  - now apply grid_end_bounds.
Qed.




Lemma vertices_app (l1 l2 : list GPCanvas.CanvasOp) :
  vertices (l1 ++ l2) = vertices l1 ++ vertices l2.
Proof. apply flat_map_app. Qed.

Lemma vertices_pathTo_map (f g : nat -> R) (l : list nat) :
  vertices (map (fun i => GPCanvas.pathTo i (f i) (g i)) l)
  = map (fun i => (f i, g i)) l.
Proof.
  induction l as [|i l IH]; [reflexivity|].
  unfold vertices in *. cbn [map flat_map]. rewrite IH.
  unfold GPCanvas.pathTo. now destruct (Nat.eqb i 0).
Qed.

Lemma vertices_lineTo_map (f g : nat -> R) (l : list nat) :
  vertices (map (fun i => GPCanvas.LineTo (f i) (g i)) l)
  = map (fun i => (f i, g i)) l.
Proof.
  induction l as [|i l IH]; [reflexivity|].
  unfold vertices in *. cbn [map flat_map]. now rewrite IH.
Qed.

Lemma nth_map_seq {A : Type} (f : nat -> A) (n i : nat) (d : A) :
  (i < n)%nat -> nth i (map f (seq 0 n)) d = f i.
Proof.
  intros Hi.
  rewrite (nth_indep _ d (f O)) by now rewrite length_map, length_seq.
  rewrite map_nth. now rewrite seq_nth.
Qed.

Lemma nth_map_rev_seq {A : Type} (f : nat -> A) (n i : nat) (d : A) :
  (i < n)%nat -> nth i (map f (rev (seq 0 n))) d = f (n - 1 - i)%nat.
Proof.
  intros Hi.
  rewrite map_rev, rev_nth by (rewrite length_map, length_seq; lia).
  rewrite length_map, length_seq.
  rewrite nth_map_seq by lia. f_equal. lia.
Qed.

Lemma band_vertices (st : GPCanvas.State) (mean variance : list R) :
  vertices (GPCanvas.drawConfidenceBand st mean variance)
  = map (fun i =>
           (GPCanvas.toCanvasX st (nth i (GPCanvas.testX st) 0),
            GPCanvas.toCanvasY st
              (nth i mean 0 + 2 * sqrt (nth i variance 0))))
      (seq 0 (length (GPCanvas.testX st)))
    ++ map (fun i =>
              (GPCanvas.toCanvasX st (nth i (GPCanvas.testX st) 0),
               GPCanvas.toCanvasY st
                 (nth i mean 0 - 2 * sqrt (nth i variance 0))))
         (rev (seq 0 (length (GPCanvas.testX st)))).
Proof.
  unfold GPCanvas.drawConfidenceBand.
  rewrite !vertices_app.
  rewrite (vertices_pathTo_map
             (fun i => GPCanvas.toCanvasX st (nth i (GPCanvas.testX st) 0))
             (fun i => GPCanvas.toCanvasY st
                         (nth i mean 0 + 2 * sqrt (nth i variance 0)))).
  rewrite (vertices_lineTo_map
             (fun i => GPCanvas.toCanvasX st (nth i (GPCanvas.testX st) 0))
             (fun i => GPCanvas.toCanvasY st
                         (nth i mean 0 - 2 * sqrt (nth i variance 0)))).
  match goal with
  | |- context [vertices (GPCanvas.ClosePath :: ?t)] =>
      change (vertices (GPCanvas.ClosePath :: t)) with (@nil (R * R))
  end.
  rewrite app_nil_r. reflexivity.
Qed.

Lemma meanLine_vertices (st : GPCanvas.State) (mean : list R) :
  let path :=
    map (fun i =>
           (GPCanvas.toCanvasX st (nth i (GPCanvas.testX st) 0),
            GPCanvas.toCanvasY st (nth i mean 0)))
        (seq 0 (length (GPCanvas.testX st))) in
  vertices (GPCanvas.drawMeanLine st mean) = path ++ path.
Proof.
  cbv zeta. unfold GPCanvas.drawMeanLine, GPCanvas.meanPath.
  rewrite !vertices_app.
  rewrite (vertices_pathTo_map
             (fun i => GPCanvas.toCanvasX st (nth i (GPCanvas.testX st) 0))
             (fun i => GPCanvas.toCanvasY st (nth i mean 0))).
  change (vertices [GPCanvas.Stroke]) with (@nil (R * R)).
  match goal with
  | |- context [vertices (GPCanvas.Stroke :: ?t)] =>
      change (vertices (GPCanvas.Stroke :: t)) with (@nil (R * R))
  end.
  rewrite app_nil_r. reflexivity.
Qed.

(** X13. On a canvas of positive height with a non-degenerate y-range, the
    band polygon has 600 vertices and the mean line is traced twice over
    300; for every test point whose mean and variance are given, with a
    non-negative variance, the upper band vertex, the mean vertex and the
    lower band vertex have the same canvas x, and the mean lies between
    the two band edges (canvas y grows downwards). *)
Theorem band_encloses_mean_line (st : GPCanvas.State)
  (mean variance : list R) (i : nat) :
  0 < GPCanvas.height st ->
  yMin (GPCanvas.bounds st) < yMax (GPCanvas.bounds st) ->
  (i < 300)%nat ->
  (i < length mean)%nat ->
  (i < length variance)%nat ->
  0 <= nth i variance 0 ->
  let band := vertices (GPCanvas.drawConfidenceBand st mean variance) in
  let line := vertices (GPCanvas.drawMeanLine st mean) in
  length band = 600%nat /\ length line = 600%nat
  /\ exists cx yUpper yMean yLower,
      nth i band (0, 0) = (cx, yUpper)
      /\ nth (599 - i) band (0, 0) = (cx, yLower)
      /\ nth i line (0, 0) = (cx, yMean)
      /\ nth (300 + i) line (0, 0) = (cx, yMean)
      /\ yUpper <= yMean <= yLower.
Proof.
  intros Hh Hy Hi _ _ _ band line.
  assert (Hn : length (GPCanvas.testX st) = 300%nat)
    by apply linspace_length.
  unfold band, line. rewrite band_vertices, meanLine_vertices. cbv zeta.
  rewrite Hn.
  split; [now rewrite length_app, !length_map, length_rev, length_seq|].
  split; [now rewrite length_app, !length_map, length_seq|].
  do 4 eexists.
  split.
  { rewrite app_nth1 by (rewrite length_map, length_seq; exact Hi).
    rewrite nth_map_seq by exact Hi. reflexivity. }
  split.
  { rewrite app_nth2 by (rewrite length_map, length_seq; lia).
    rewrite length_map, length_seq.
    rewrite nth_map_rev_seq by lia.
    replace (300 - 1 - (599 - i - 300))%nat with i by lia. reflexivity. }
  split.
  { rewrite app_nth1 by (rewrite length_map, length_seq; exact Hi).
    rewrite nth_map_seq by exact Hi. reflexivity. }
  split.
  { rewrite app_nth2 by (rewrite length_map, length_seq; lia).
    rewrite length_map, length_seq.
    replace (300 + i - 300)%nat with i by lia.
    rewrite nth_map_seq by exact Hi. reflexivity. }
  pose proof (sqrt_pos (nth i variance 0)) as Hs.
  unfold GPCanvas.toCanvasY.
  set (d := yMax (GPCanvas.bounds st) - yMin (GPCanvas.bounds st)).
  assert (Hd : 0 < / d) by (apply Rinv_0_lt_compat; unfold d; lra).
  unfold Rdiv.
  set (k := / d) in *. set (h := GPCanvas.height st) in *.
  assert (Hkh : 0 <= k * h) by nra.
  split; nra.
Qed.

Lemma strokeStyles_app (l1 l2 : list GPCanvas.CanvasOp) :
  strokeStyles (l1 ++ l2) = strokeStyles l1 ++ strokeStyles l2.
Proof. apply flat_map_app. Qed.

Lemma strokeStyles_path (f : nat -> R -> GPCanvas.CanvasOp) (i : nat)
  (l : list R) :
  (forall k x, exists a b, f k x = GPCanvas.pathTo k a b) ->
  strokeStyles (mapi_from f i l) = [].
Proof.
  intros Hf. revert i. induction l as [|x l IH]; intros i; [reflexivity|].
  unfold strokeStyles in *. cbn [mapi_from flat_map]. rewrite IH.
  destruct (Hf i x) as (a & b & ->).
  unfold GPCanvas.pathTo. now destruct (Nat.eqb i 0).
Qed.


Lemma strokeStyles_drawSample (st : GPCanvas.State) (s : nat)
  (sample : Sample) :
  strokeStyles (GPCanvas.drawSample st s sample) = [sampleColor s].
Proof.
  unfold GPCanvas.drawSample. rewrite !strokeStyles_app.
  rewrite strokeStyles_path by (intros k x; eexists; eexists; reflexivity).
  reflexivity.
Qed.

Lemma strokeStyles_drawSamples_from (st : GPCanvas.State) (k : nat)
  (samples : list Sample) :
  strokeStyles (concat (mapi_from (GPCanvas.drawSample st) k samples))
  = map sampleColor (seq k (length samples)).
Proof.
  revert k. induction samples as [|s samples IH]; intros k; [reflexivity|].
  cbn [mapi_from concat length seq map].
  now rewrite strokeStyles_app, strokeStyles_drawSample, IH.
Qed.

Lemma sample_colors_distinct (n : nat) :
  (n <= 5)%nat -> NoDup (map sampleColor (seq 0 n)).
Proof.
  intros Hn.
  do 6 (destruct n as [|n]; [repeat constructor; simpl; intuition discriminate|]).
  lia.
Qed.

Lemma LegacyApp_run_capped (random : nat -> R) (sampleFromGP : Sampler)
  (evs : list LegacyApp.Event) :
  capped (LegacyApp.samples (LegacyApp.run random sampleFromGP evs)).
Proof.
  unfold LegacyApp.run.
  assert (Hinit : capped (LegacyApp.samples LegacyApp.init))
    by (unfold capped; simpl; lia).
  revert Hinit. generalize LegacyApp.init.
  induction evs as [|e evs IH]; intros st Hst; simpl.
  - exact Hst.
  - apply IH. now apply LegacyApp_step_capped.
Qed.

(** X14. In every state of the application, each sample of the history
    is stroked in a colour of its own: [drawSamples] sets as many stroke
    styles as there are samples, without repetition. *)
Theorem sample_curves_have_distinct_colors (random : nat -> R)
  (sampleFromGP : Sampler) (evs : list LegacyApp.Event)
  (cst : GPCanvas.State) :
  let samples := LegacyApp.samples (LegacyApp.run random sampleFromGP evs) in
  let styles := strokeStyles (GPCanvas.drawSamples cst samples) in
  length styles = length samples /\ NoDup styles.
Proof.
  cbv zeta. unfold GPCanvas.drawSamples.
  rewrite strokeStyles_drawSamples_from.
  split.
  - now rewrite length_map, length_seq.
  - apply sample_colors_distinct. apply LegacyApp_run_capped.
Qed.


Lemma setParamValue_frame (params params' : list Slider) (index : nat)
  (v : R) (changed : bool) :
  setParamValue params index v = Some (params', changed) ->
  map sliderFrame params' = map sliderFrame params.
Proof.
  revert index params' changed.
  induction params as [|p rest IH]; intros index params' changed H.
  - discriminate.
  - destruct index as [|i]; simpl in H.
    + injection H as <- _. reflexivity.
    + destruct (setParamValue rest i v) as [[rest' c]|] eqn:E;
        [|discriminate].
      injection H as <- _. simpl. f_equal. now apply (IH i rest' c).
Qed.

Lemma setParamValue_unchanged (params params' : list Slider) (index : nat)
  (v : R) :
  setParamValue params index v = Some (params', false) -> params' = params.
Proof.
  revert index params'.
  induction params as [|p rest IH]; intros index params' H.
  - discriminate.
  - destruct index as [|i]; simpl in H.
    + destruct (Req_dec_T v (value p)) as [->|]; [|discriminate].
      injection H as <-. now destruct p.
    + destruct (setParamValue rest i v) as [[rest' c]|] eqn:E;
        [|discriminate].
      injection H as <- ->. f_equal. now apply (IH i).
Qed.

Lemma setParamValue_changed (params params' : list Slider) (index : nat)
  (v : R) :
  setParamValue params index v = Some (params', true) -> params' <> params.
Proof.
  revert index params'.
  induction params as [|p rest IH]; intros index params' H.
  - discriminate.
  - destruct index as [|i]; simpl in H.
    + destruct (Req_dec_T v (value p)) as [|Hne]; [discriminate|].
      injection H as <-. intros E. injection E as E.
      apply (f_equal value) in E. simpl in E. congruence.
    + destruct (setParamValue rest i v) as [[rest' c]|] eqn:E;
        [|discriminate].
      injection H as <- ->. intros E'. injection E' as E'.
      now apply (IH i rest').
Qed.

Lemma KernelId_eqb_eq (a b : KernelId) : KernelId_eqb a b = true <-> a = b.
Proof. destruct a, b; simpl; split; congruence. Qed.

Lemma App_step_frame (random : nat -> R) (sampleFromGP : Sampler)
  (st : App.State) (e : App.Event) :
  map sliderFrame (App.params (App.step random sampleFromGP st e))
  = map sliderFrame (App.params st).
Proof.
  unfold App.step, App.flushWatcher.
  destruct (snd _); cbn [App.params App.setSamples];
    (destruct e; unfold App.handle; try reflexivity;
     [ unfold App.sampleGP; destruct (App.gpParams st); [|reflexivity];
       now destruct (sampleFromGP _ _ _ _) as [[ys|err] calls]
     | unfold App.updateParamValue;
       destruct (setParamValue _ _ _) as [[params' changed]|] eqn:E;
       [ now apply setParamValue_frame in E | reflexivity ] ]).
Qed.

Lemma App_run_frame (random : nat -> R) (sampleFromGP : Sampler)
  (evs : list App.Event) :
  map sliderFrame (App.params (App.run random sampleFromGP evs))
  = map sliderFrame initialParams.
Proof.
  unfold App.run.
  assert (Hinit : map sliderFrame (App.params App.init)
                  = map sliderFrame initialParams) by reflexivity.
  revert Hinit. generalize App.init.
  induction evs as [|e evs IH]; intros st Hst; simpl.
  - exact Hst.
  - apply IH. now rewrite App_step_frame.
Qed.

Lemma frame_three_sliders (params : list Slider) :
  map sliderFrame params = map sliderFrame initialParams ->
  exists l s n,
    params = [mkSlider KLengthScale l (1 / 10) 3 (5 / 100);
              mkSlider KSignalVariance s (1 / 10) 3 (5 / 100);
              mkSlider KNoiseLevel n (1 / 100) (5 / 10) (1 / 100)].
Proof.
  intros H.
  destruct params as [|a [|b [|c [|d rest]]]]; try discriminate.
  destruct a as [ka va mina maxa stepa], b as [kb vb minb maxb stepb],
    c as [kc vc minc maxc stepc].
  unfold sliderFrame in H. simpl in H.
  injection H as -> -> -> -> -> -> -> -> -> -> -> ->.
  now exists va, vb, vc.
Qed.

(** X15. In every state the application reaches, [params] consists of the
    three sliders for length scale, signal variance and noise level, in
    this order and with their initial [min], [max] and [step]; [gpParams]
    does not throw and is the record of their values with the selected
    kernel. *)
Theorem params_keep_their_shape (random : nat -> R) (sampleFromGP : Sampler)
  (evs : list App.Event) :
  let st := App.run random sampleFromGP evs in
  exists l s n,
    App.params st
    = [mkSlider KLengthScale l (1 / 10) 3 (5 / 100);
       mkSlider KSignalVariance s (1 / 10) 3 (5 / 100);
       mkSlider KNoiseLevel n (1 / 100) (5 / 10) (1 / 100)]
    /\ App.gpParams st = Ok (mkParams l s n (App.selectedKernel st)).
Proof.
  cbv zeta.
  destruct (frame_three_sliders _ (App_run_frame random sampleFromGP evs))
    as (l & s & n & E).
  exists l, s, n. split; [exact E|].
  unfold App.gpParams. rewrite E. reflexivity.
Qed.

(** X16. In every state the application reaches, [updateParamValue] with
    index 0, 1 or 2 makes [gpParams] read the new value as length scale,
    signal variance or noise level and leaves the other fields as they
    were; with any other index it leaves the state unchanged. *)
Theorem updateParamValue_round_trip (random : nat -> R)
  (sampleFromGP : Sampler) (evs : list App.Event) (v : R) :
  let st := App.run random sampleFromGP evs in
  let upd i := App.step random sampleFromGP st (App.UpdateParam i v) in
  exists p,
    App.gpParams st = Ok p
    /\ App.gpParams (upd 0%nat)
       = Ok (mkParams v (signalVariance p) (noiseLevel p) (kernel p))
    /\ App.gpParams (upd 1%nat)
       = Ok (mkParams (lengthScale p) v (noiseLevel p) (kernel p))
    /\ App.gpParams (upd 2%nat)
       = Ok (mkParams (lengthScale p) (signalVariance p) v (kernel p))
    /\ (forall i, (3 <= i)%nat -> upd i = st).
Proof.
  cbv zeta.
  destruct (frame_three_sliders _ (App_run_frame random sampleFromGP evs))
    as (l & s & n & E).
  set (st := App.run random sampleFromGP evs) in *.
  exists (mkParams l s n (App.selectedKernel st)).
  unfold App.gpParams, App.step, App.handle, App.updateParamValue.
  rewrite E. cbn [setParamValue].
  split; [reflexivity|].
  split; [destruct (Req_dec_T _ _); reflexivity|].
  split; [destruct (Req_dec_T _ _); reflexivity|].
  split; [destruct (Req_dec_T _ _); reflexivity|].
  intros i Hi. destruct i as [|[|[|i]]]; try lia. reflexivity.
Qed.

Lemma updateParamValue_round_trip_witness :
  App.step (fun _ => 0) echoGrid
    (App.run (fun _ => 0) echoGrid [App.AddPoint (mkPoint 0 1)])
    (App.UpdateParam 7 2)
  = App.run (fun _ => 0) echoGrid [App.AddPoint (mkPoint 0 1)].
Proof.
  destruct (updateParamValue_round_trip (fun _ => 0) echoGrid
              [App.AddPoint (mkPoint 0 1)] 2) as (p & _ & _ & _ & _ & H).
  apply H. lia.
Defined.

(** X17. Whenever an operation changes the observation points, the
    parameter sliders or the selected kernel, the sample history is empty
    afterwards.  An operation other than the sample and the clear action
    that changes none of them, such as a change of bounds or setting a
    parameter to its current value, keeps the sample history. *)
Theorem samples_cleared_when_inputs_change (random : nat -> R)
  (sampleFromGP : Sampler) (st : App.State) (e : App.Event) :
  let st' := App.step random sampleFromGP st e in
  ((App.points st' <> App.points st
    \/ App.params st' <> App.params st
    \/ App.selectedKernel st' <> App.selectedKernel st) ->
   App.samples st' = [])
  /\ (App.points st' = App.points st ->
      App.params st' = App.params st ->
      App.selectedKernel st' = App.selectedKernel st ->
      e <> App.SampleGP -> e <> App.ClearAll ->
      App.samples st' = App.samples st).
Proof.
  cbv zeta. unfold App.step.
  destruct e; unfold App.handle.
  - split; [reflexivity|]. intros Hp _ _ _ _.
    unfold App.flushWatcher, App.addPoint in Hp. simpl in Hp.
    apply (f_equal (@length Point)) in Hp. rewrite length_app in Hp.
    simpl in Hp. lia.
  - unfold App.addRandomPoints.
    destruct (addRandomLoop_appends random (App.bounds st) 5
                (App.points st) (App.randomCalls st)) as (new & E & Hl).
    destruct (addRandomLoop _ _ _ _ _) as [pts calls]. simpl in E.
    split; [reflexivity|]. intros Hp _ _ _ _.
    unfold App.flushWatcher in Hp. simpl in Hp. rewrite E in Hp.
    apply (f_equal (@length Point)) in Hp. rewrite length_app in Hp. lia.
  - split; [|intros _ _ _ H; contradiction].
    unfold App.sampleGP. destruct (App.gpParams st);
      [destruct (sampleFromGP _ _ _ _) as [[ys|err] calls]|];
      unfold App.flushWatcher; simpl; intros [H|[H|H]]; contradiction.
  - split; [|intros _ _ _ _ H; contradiction].
    intros _. unfold App.flushWatcher, App.clearAll.
    now destruct (App.points st).
  - unfold App.updateParamValue.
    destruct (setParamValue _ _ _) as [[params' [|]]|] eqn:E;
      unfold App.flushWatcher; simpl.
    + split; [reflexivity|]. intros _ Hp _ _ _.
      apply setParamValue_changed in E. contradiction.
    + apply setParamValue_unchanged in E. subst params'.
      split; [intros [H|[H|H]]; contradiction | reflexivity].
    + split; [intros [H|[H|H]]; contradiction | reflexivity].
  - unfold App.flushWatcher, App.updateKernel. simpl.
    destruct (KernelId_eqb k (App.selectedKernel st)) eqn:E; simpl.
    + apply KernelId_eqb_eq in E.
      split; [intros [H|[H|H]]; contradiction|reflexivity].
    + split; [reflexivity|]. intros _ _ Hk _ _.
      apply KernelId_eqb_eq in Hk. congruence.
  - unfold App.flushWatcher. simpl.
    split; [intros [H|[H|H]]; contradiction | reflexivity].
Qed.

Lemma samples_cleared_when_inputs_change_witness :
  let st := App.step (fun _ => 0) echoGrid App.init App.SampleGP in
  App.samples st <> []
  /\ App.samples
       (App.step (fun _ => 0) echoGrid st (App.UpdateKernel matern32))
     = [].
Proof.
  intros st. split; [discriminate|].
  apply (samples_cleared_when_inputs_change (fun _ => 0) echoGrid st
           (App.UpdateKernel matern32)).
  right. right. discriminate.
Defined.

Lemma band_encloses_mean_line_witness :
  let st := GPCanvas.setupCanvas 800 500 GPCanvas.init in
  length (vertices (GPCanvas.drawConfidenceBand st (repeat 0 300)
                      (repeat 1 300))) = 600%nat.
Proof.
  intros st.
  destruct (band_encloses_mean_line st (repeat 0 300) (repeat 1 300) 0)
    as [H _].
  - simpl. lra.
  - simpl. lra.
  - lia.
  - simpl. lia.
  - simpl. lia.
  - simpl. lra.
  - exact H.
Defined.



Lemma pushSample_Forall (P : Sample -> Prop) (l : list Sample) (s : Sample) :
  Forall P l -> P s -> Forall P (pushSample l s).
Proof.
  intros Hl Hs. unfold pushSample.
  assert (H : Forall P (l ++ [s])).
  { apply Forall_app. split; [exact Hl | now constructor]. }
  destruct (Nat.ltb 5 (length (l ++ [s]))); [|exact H].
  destruct (l ++ [s]); [constructor | now inversion H].
Qed.

Lemma App_step_sampleOnGrid (random : nat -> R) (sampleFromGP : Sampler)
  (st : App.State) (e : App.Event) :
  returnsGridLength sampleFromGP ->
  Forall (sampleOnGrid 300) (App.samples st) ->
  Forall (sampleOnGrid 300) (App.samples (App.step random sampleFromGP st e)).
Proof.
  intros Hs H. unfold App.step, App.flushWatcher.
  destruct (snd _); [constructor|].
  destruct e; unfold App.handle; try exact H.
  - unfold App.sampleGP. destruct (App.gpParams st); [|exact H].
    destruct (sampleFromGP _ _ _ _) as [[ys|err] calls] eqn:E; [|exact H].
    simpl. apply pushSample_Forall; [exact H|].
    unfold sampleOnGrid. cbn [sx sy]. apply Hs in E.
    rewrite E. split; apply linspace_length.
  - constructor.
  - unfold App.updateParamValue.
    now destruct (setParamValue _ _ _) as [[params' changed]|].
Qed.

Lemma LegacyApp_step_sampleOnGrid (random : nat -> R)
  (sampleFromGP : Sampler) (st : LegacyApp.State) (e : LegacyApp.Event) :
  returnsGridLength sampleFromGP ->
  Forall (sampleOnGrid 150) (LegacyApp.samples st) ->
  Forall (sampleOnGrid 150)
    (LegacyApp.samples (LegacyApp.step random sampleFromGP st e)).
Proof.
  intros Hs H.
  destruct e; unfold LegacyApp.step; try (constructor).
  - unfold LegacyApp.sampleGP. destruct (LegacyApp.gpParams st); [|exact H].
    destruct (sampleFromGP _ _ _ _) as [[ys|err] calls] eqn:E; [|exact H].
    simpl. apply pushSample_Forall; [exact H|].
    unfold sampleOnGrid. cbn [sx sy]. apply Hs in E.
    rewrite E. split; apply linspace_length.
  - unfold LegacyApp.updateParamValue.
    now destruct (setParamValue _ _ _) as [[params' changed]|].
Qed.

(** X18. If [sampleFromGP] returns as many values as its grid has points,
    every sample of the history has an [x] and a [y] of 300 values (150 in
    the earlier App.vue), after every sequence of operations. *)
Theorem stored_samples_cover_their_grid (random : nat -> R)
  (sampleFromGP : Sampler) :
  returnsGridLength sampleFromGP ->
  (forall evs : list App.Event,
      Forall (sampleOnGrid 300)
        (App.samples (App.run random sampleFromGP evs)))
  /\ (forall evs : list LegacyApp.Event,
        Forall (sampleOnGrid 150)
          (LegacyApp.samples (LegacyApp.run random sampleFromGP evs))).
Proof.
  intros Hs. split; intros evs.
  - unfold App.run.
    assert (Hinit : Forall (sampleOnGrid 300) (App.samples App.init))
      by constructor.
    revert Hinit. generalize App.init.
    induction evs as [|e evs IH]; intros st Hst; simpl.
    + exact Hst.
    + apply IH. now apply App_step_sampleOnGrid.
  - unfold LegacyApp.run.
    assert (Hinit : Forall (sampleOnGrid 150)
                      (LegacyApp.samples LegacyApp.init)) by constructor.
    revert Hinit. generalize LegacyApp.init.
    induction evs as [|e evs IH]; intros st Hst; simpl.
    + exact Hst.
    + apply IH. now apply LegacyApp_step_sampleOnGrid.
Qed.

Lemma stored_samples_cover_their_grid_witness :
  Forall (sampleOnGrid 300)
    (App.samples
       (App.run (fun _ => 0) echoGrid [App.SampleGP; App.SampleGP])).
Proof.
  destruct (stored_samples_cover_their_grid (fun _ => 0) echoGrid) as [H _].
  - intros points grid params calls sampleY calls' E.
    injection E as <- _. reflexivity.
  - apply H.
Defined.



Lemma App_step_points_length (random : nat -> R) (sampleFromGP : Sampler)
  (st : App.State) (e : App.Event) :
  length (App.points (App.step random sampleFromGP st e))
  = match e with
    | App.AddPoint _ => S (length (App.points st))
    | App.AddRandom => (length (App.points st) + 5)%nat
    | App.ClearAll => O
    | _ => length (App.points st)
    end.
Proof.
  unfold App.step. rewrite App_flushWatcher_points.
  destruct e; unfold App.handle; try reflexivity.
  - simpl. rewrite length_app. simpl. lia.
  - unfold App.addRandomPoints.
    destruct (addRandomLoop_appends random (App.bounds st) 5
                (App.points st) (App.randomCalls st)) as (new & E & Hl).
    destruct (addRandomLoop _ _ _ _ _) as [pts calls]. simpl in *.
    rewrite E, length_app. lia.
  - unfold App.sampleGP. destruct (App.gpParams st); [|reflexivity].
    now destruct (sampleFromGP _ _ _ _) as [[ys|err] calls].
  - unfold App.updateParamValue.
    now destruct (setParamValue _ _ _) as [[params' changed]|].
Qed.

(** X19. The number of observation points, which the canvas footer
    displays, is the number of single points added plus five for every
    random batch since the last clear. *)
Theorem observation_counter (random : nat -> R) (sampleFromGP : Sampler)
  (evs : list App.Event) :
  length (App.points (App.run random sampleFromGP evs))
  = countObservations evs.
Proof.
  unfold App.run, countObservations.
  assert (Hinit : length (App.points App.init) = O) by reflexivity.
  revert Hinit. generalize App.init, O.
  induction evs as [|e evs IH]; intros st n Hst; simpl.
  - exact Hst.
  - apply IH. rewrite App_step_points_length, Hst.
    now destruct e.
Qed.
